(** * Correlation-matrix analyzer: a shallow embedding and its properties

    The development follows the TypeScript sources:

    - [utils/statistics.ts]: [calculatePearsonCorrelation] and
      [generateCorrelationMatrix];
    - [components/DataConfig.tsx]: [detectHeaderRow], the [headers]/[dataRows]
      memo, the default selection effect, the selection handlers and
      [handleAnalyze];
    - [App.tsx]: the [handleAnalyze] callback that feeds the extracted
      variables to [generateCorrelationMatrix].

    JavaScript numbers are IEEE 754 binary64 values; they are modelled by
    Rocq's primitive floats, so every arithmetic step of the model rounds
    exactly as the program does.  The statistics functions are written once,
    over an interface of number operations, and instantiated twice: with the
    binary64 operations (the program) and with exact real arithmetic (the
    mathematical reading of the same text). *)

From Stdlib Require Import ZArith List Bool Lia Floats Reals Lra Psatz String Ascii Sorted.
From Stdlib Require Uint63.
From stdpp Require Import base list.
Import ListNotations.

#[local] Set Warnings "-inexact-float".
Local Open Scope nat_scope.

(* ================================================================== *)
(** * JavaScript values *)

(** A JavaScript string is a sequence of UTF-16 code units. *)
Abbreviation JSString := (list N).

(** An ASCII literal as a JavaScript string. *)
Definition js (s : string) : JSString :=
  map N_of_ascii (list_ascii_of_string s).

(** [String.fromCharCode(n)]: one code unit, [n] taken modulo 2^16. *)
Definition fromCharCode (n : nat) : JSString := [(N.of_nat n mod 65536)%N].

(** The values a cell of [ParsedData.rows] (typed [any[][]]) can hold.
    [Undefined] is also what an index past the end of a row reads. *)
Inductive Cell :=
| Undefined
| Null
| Str (s : JSString)
| Num (x : float)
| Bool (b : bool).

Abbreviation Row := (list Cell).
Abbreviation Table := (list (list Cell)).

(** [row[i]] *)
Definition cellAt (row : Row) (i : nat) : Cell :=
  match row !! i with Some c => c | None => Undefined end.

(** [c === null || c === undefined] *)
Definition isNullish (c : Cell) : bool :=
  match c with Undefined | Null => true | _ => false end.

(* ================================================================== *)
(** * Numbers *)

(** The operations [statistics.ts] applies to numbers. *)
Class NumberOps (T : Type) := {
  num_zero : T;
  num_one : T;
  num_add : T -> T -> T;
  num_sub : T -> T -> T;
  num_mul : T -> T -> T;
  num_div : T -> T -> T;
  num_sqrt : T -> T;
  num_eqb : T -> T -> bool;        (* [===] on numbers *)
  num_isFinite : T -> bool;        (* [Number.isFinite] *)
  num_of_nat : nat -> T            (* an integer counter read as a number *)
}.

Declare Scope number_scope.
Delimit Scope number_scope with num.
Notation "x + y" := (num_add x y) : number_scope.
Notation "x - y" := (num_sub x y) : number_scope.
Notation "x * y" := (num_mul x y) : number_scope.
Notation "x / y" := (num_div x y) : number_scope.
Notation "x === y" := (num_eqb x y) (at level 70, no associativity) : number_scope.

(** A counter as a binary64 value (exact below 2^53). *)
Definition float_of_nat (n : nat) : float :=
  PrimFloat.of_uint63 (Uint63.of_Z (Z.of_nat n)).

(** JavaScript's Number type: IEEE 754 binary64. *)
#[export] Instance float_ops : NumberOps float := {|
  num_zero := PrimFloat.zero;
  num_one := PrimFloat.one;
  num_add := PrimFloat.add;
  num_sub := PrimFloat.sub;
  num_mul := PrimFloat.mul;
  num_div := PrimFloat.div;
  num_sqrt := PrimFloat.sqrt;
  num_eqb := PrimFloat.eqb;
  num_isFinite := PrimFloat.is_finite;
  num_of_nat := float_of_nat
|}.

(** [isNaN(x)] for a number [x]. *)
Definition isNaN (x : float) : bool := PrimFloat.is_nan x.

(** Exact arithmetic: a real number, or the not-a-number marker.  No
    rounding and no overflow; the operations that binary64 leaves undefined
    (division by zero, root of a negative number) give the marker. *)
Inductive XR :=
| XNaN
| XReal (r : R).

Definition XR_lift2 (f : R -> R -> R) (a b : XR) : XR :=
  match a, b with
  | XReal x, XReal y => XReal (f x y)
  | _, _ => XNaN
  end.

Definition XR_div (a b : XR) : XR :=
  match a, b with
  | XReal x, XReal y => if Req_dec_T y 0 then XNaN else XReal (x / y)
  | _, _ => XNaN
  end.

Definition XR_sqrt (a : XR) : XR :=
  match a with
  | XReal x => if Rlt_dec x 0 then XNaN else XReal (sqrt x)
  | XNaN => XNaN
  end.

Definition XR_eqb (a b : XR) : bool :=
  match a, b with
  | XReal x, XReal y => if Req_dec_T x y then true else false
  | _, _ => false
  end.

Definition XR_isFinite (a : XR) : bool :=
  match a with XReal _ => true | XNaN => false end.

#[export] Instance exact_ops : NumberOps XR := {|
  num_zero := XReal 0;
  num_one := XReal 1;
  num_add := XR_lift2 Rplus;
  num_sub := XR_lift2 Rminus;
  num_mul := XR_lift2 Rmult;
  num_div := XR_div;
  num_sqrt := XR_sqrt;
  num_eqb := XR_eqb;
  num_isFinite := XR_isFinite;
  num_of_nat := fun n => XReal (INR n)
|}.

(* ================================================================== *)
(** * Abrupt completion *)

(** What a JavaScript statement of the modelled code can do besides
    completing: throw a [TypeError] (a property read on [undefined]).
    [SparseWrite] marks an array write past the end, which would leave holes
    that the dense rows of the model do not represent. *)
Inductive JSError := TypeError | SparseWrite.

Inductive Completion (A : Type) :=
| Normal (a : A)
| Throw (e : JSError).
Arguments Normal {A} a.
Arguments Throw {A} e.

Definition bind {A B} (m : Completion A) (k : A -> Completion B) : Completion B :=
  match m with
  | Normal a => k a
  | Throw e => Throw e
  end.

#[export] Instance Completion_bind : MBind Completion :=
  fun A B k m => bind m k.

(** A [for] loop over the indices [l], threading the loop state. *)
Fixpoint forM {A St} (body : St -> A -> Completion St) (l : list A) (s : St)
  : Completion St :=
  match l with
  | [] => Normal s
  | a :: l' => s' ← body s a; forM body l' s'
  end.

(* ================================================================== *)
(** * [utils/statistics.ts] *)

Record VariableData (T : Type) := mkVariableData {
  name : JSString;
  values : list T
}.
Arguments mkVariableData {T}.
Arguments name {T}.
Arguments values {T}.

Record Matrix (T : Type) := mkMatrix {
  variables : list JSString;
  grid : list (list T)
}.
Arguments mkMatrix {T}.
Arguments variables {T}.
Arguments grid {T}.

Section Statistics.
Context {T : Type} {ops : NumberOps T}.
Local Open Scope number_scope.

(** The accumulators of [calculatePearsonCorrelation]. *)
Record Sums := mkSums {
  sumX : T;
  sumY : T;
  sumXY : T;
  sumXSq : T;
  sumYSq : T;
  validCount : nat
}.

Definition noSums : Sums := mkSums num_zero num_zero num_zero num_zero num_zero 0.

(** The accumulation of one valid pair. *)
Definition addPair (acc : Sums) (xi yi : T) : Sums :=
  mkSums (sumX acc + xi) (sumY acc + yi) (sumXY acc + xi * yi)
         (sumXSq acc + xi * xi) (sumYSq acc + yi * yi) (S (validCount acc)).

(** The body of the loop at index [i]. *)
Definition pearsonStep (x y : list T) (acc : Sums) (i : nat) : Sums :=
  match x !! i, y !! i with
  | Some xi, Some yi =>
      if negb (num_isFinite xi) || negb (num_isFinite yi) then acc
      else addPair acc xi yi
  | _, _ => acc
  end.

(** What follows the loop. *)
Definition pearsonResult (acc : Sums) : option T :=
  if validCount acc <? 2 then None
  else
    let k := num_of_nat (validCount acc) in
    let numerator := k * sumXY acc - sumX acc * sumY acc in
    let denominator :=
      num_sqrt ((k * sumXSq acc - sumX acc * sumX acc)
                * (k * sumYSq acc - sumY acc * sumY acc)) in
    if denominator === num_zero then Some num_zero
    else Some (numerator / denominator).

(** [null] is [None]. *)
Definition calculatePearsonCorrelation (x y : list T) : option T :=
  let maxLen := Nat.max (length x) (length y) in
  pearsonResult (fold_left (pearsonStep x y) (seq 0 maxLen) noSums).

(** [Array(n).fill(null).map(() => Array(n).fill(0))]: [n] distinct rows. *)
Definition zeroGrid (n : nat) : list (list T) :=
  replicate n (replicate n num_zero).

(** [grid[i][j] = v] *)
Definition gridSet (g : list (list T)) (i j : nat) (v : T)
  : Completion (list (list T)) :=
  match g !! i with
  | None => Throw TypeError
  | Some row =>
      if j <? length row then Normal (<[i := <[j := v]> row]> g)
      else if j =? length row then Normal (<[i := row ++ [v]]> g)
      else Throw SparseWrite
  end.

(** [data[i].values] *)
Definition valuesAt (data : list (VariableData T)) (i : nat)
  : Completion (list T) :=
  match data !! i with
  | Some d => Normal (values d)
  | None => Throw TypeError
  end.

(** [corr !== null ? corr : 0] *)
Definition orZero (corr : option T) : T :=
  match corr with Some c => c | None => num_zero end.

(** The body of the inner loop. *)
Definition cellStep (data : list (VariableData T)) (i : nat)
  (g : list (list T)) (j : nat) : Completion (list (list T)) :=
  if i =? j then gridSet g i j num_one
  else if i <? j then
    xs ← valuesAt data i;
    ys ← valuesAt data j;
    let val := orZero (calculatePearsonCorrelation xs ys) in
    g' ← gridSet g i j val;
    gridSet g' j i val
  else Normal g.

(** The body of the outer loop. *)
Definition rowStep (data : list (VariableData T)) (n : nat)
  (g : list (list T)) (i : nat) : Completion (list (list T)) :=
  forM (cellStep data i) (seq 0 n) g.

Definition generateCorrelationMatrix (data : list (VariableData T))
  : Completion (Matrix T) :=
  let variables := map name data in
  let n := length variables in
  g ← forM (rowStep data n) (seq 0 n) (zeroGrid n);
  Normal (mkMatrix variables g).

(** [g[i][j]], when both indices are in range. *)
Definition gridAt (g : list (list T)) (i j : nat) : option T :=
  match g !! i with
  | Some row => row !! j
  | None => None
  end.

(** [matrix.grid[i][j]] *)
Definition entry (m : Matrix T) (i j : nat) : option T := gridAt (grid m) i j.

End Statistics.

(* ================================================================== *)
(** * The builtin [parseFloat]

    ECMA-262, 19.2.4: leading white space is skipped, the longest prefix
    that is a [StrDecimalLiteral] is read, and its value is rounded to the
    nearest binary64 number (ties to even); without such a prefix the result
    is NaN. *)

Definition isStrWhiteSpaceChar (c : N) : bool :=
  (existsb (N.eqb c)
     [9; 10; 11; 12; 13; 32; 160; 5760; 8232; 8233; 8239; 8287; 12288; 65279]
   || ((8192 <=? c) && (c <=? 8202)))%N.

Fixpoint trimStart (s : JSString) : JSString :=
  match s with
  | c :: s' => if isStrWhiteSpaceChar c then trimStart s' else s
  | [] => []
  end.

Definition digitValue (c : N) : option Z :=
  if ((48 <=? c) && (c <=? 57))%N then Some (Z.of_N (c - 48)) else None.

(** [DecimalDigits] at the start of [s]: how many there are, the number they
    write after the digits already read ([acc]), and what follows them. *)
Fixpoint decimalDigits (s : JSString) (count : nat) (acc : Z)
  : nat * Z * JSString :=
  match s with
  | c :: s' =>
      match digitValue c with
      | Some d => decimalDigits s' (S count) (10 * acc + d)%Z
      | None => (count, acc, s)
      end
  | [] => (count, acc, [])
  end.

(** An optional sign: whether it is [-], and what follows it. *)
Definition optSign (s : JSString) : bool * JSString :=
  match s with
  | 43%N :: t => (false, t)
  | 45%N :: t => (true, t)
  | _ => (false, s)
  end.

(** The value of the [ExponentPart] that [s] starts with, [0] without one. *)
Definition exponentPart (s : JSString) : Z :=
  match s with
  | c :: s1 =>
      if ((c =? 101) || (c =? 69))%N then
        let '(neg, s2) := optSign s1 in
        let '(n, v, _) := decimalDigits s2 0 0%Z in
        if n =? 0 then 0%Z else if neg then (- v)%Z else v
      else 0%Z
  | [] => 0%Z
  end.

Fixpoint startsWith (p s : JSString) : bool :=
  match p, s with
  | [], _ => true
  | a :: p', b :: s' => N.eqb a b && startsWith p' s'
  | _ :: _, [] => false
  end.

(** The binary64 number nearest to [m * 10^e] (ties to even), signed. *)
Definition decimalToFloat (neg : bool) (m e : Z) : float :=
  SF2Prim
    match m with
    | Zpos p =>
        if (0 <=? e)%Z then
          if (310 <? e)%Z then S754_infinity neg
          else binary_round prec emax neg (p * Z.to_pos (10 ^ e)) 0
        else
          let k := (- e)%Z in
          if (1076 <? 3 * k - Z.log2 m)%Z then S754_zero neg
          else
            let s := (4 * k + 64)%Z in
            let '(q, r) := Z.div_eucl (Z.shiftl m s) (10 ^ k) in
            binary_round_aux prec emax neg q (- s) (new_location (10 ^ k) r)
    | _ => S754_zero neg
    end.

Definition parseFloat (inputString : JSString) : float :=
  let trimmedString := trimStart inputString in
  let '(neg, s) := optSign trimmedString in
  if startsWith (js "Infinity") s then
    if neg then neg_infinity else infinity
  else
    let '(ni, vi, s1) := decimalDigits s 0 0%Z in
    let '(nf, vf, s2) :=
      match s1 with
      | 46%N :: t => decimalDigits t 0 vi
      | _ => (0, vi, s1)
      end in
    if (ni =? 0) && (nf =? 0) then nan
    else decimalToFloat neg vf (exponentPart s2 - Z.of_nat nf).

(* ================================================================== *)
(** * [Set<number>]

    A JavaScript [Set] iterates its elements in insertion order: it is a
    list without repetition, the oldest element first. *)

Abbreviation JSSet := (list nat).

Definition setHas (s : JSSet) (x : nat) : bool := existsb (Nat.eqb x) s.

Definition setAdd (s : JSSet) (x : nat) : JSSet :=
  if setHas s x then s else s ++ [x].

Definition setDelete (s : JSSet) (x : nat) : JSSet :=
  List.filter (fun y => negb (x =? y)) s.

(** [new Set(iterable)] *)
Definition newSet (l : list nat) : JSSet := fold_left setAdd l [].

(** [array.forEach((element, index) => ...)], threading what the callback
    updates. *)
Fixpoint forEachFrom {A St} (body : St -> A -> nat -> St) (l : list A)
  (index : nat) (s : St) : St :=
  match l with
  | [] => s
  | a :: l' => forEachFrom body l' (S index) (body s a index)
  end.

Definition forEach {A St} (body : St -> A -> nat -> St) (l : list A) (s : St)
  : St :=
  forEachFrom body l 0 s.

(* ================================================================== *)
(** * [components/DataConfig.tsx] *)

Inductive DataOrientation := Columns | Rows.

(** What [handleAnalyze] does: one of the two alerts, or the call
    [onAnalyze(variables)]. *)
Inductive AnalyzeOutcome :=
| AlertSelection
| AlertData
| OnAnalyze (variables : list (VariableData float)).

(** [typeof cell === 'string'] *)
Definition isString (c : Cell) : bool :=
  match c with Str _ => true | _ => false end.

(** [typeof cell === 'number'] *)
Definition isNumber (c : Cell) : bool :=
  match c with Num _ => true | _ => false end.

(** [s || fallback] for a string [s]: the empty string is falsy. *)
Definition orElse (s fallback : JSString) : JSString :=
  match s with [] => fallback | _ => s end.

(** [numericCount > total * 0.3], in binary64 arithmetic. *)
Definition moreThan30Percent (numericCount total : nat) : bool :=
  (float_of_nat total * 0.3 <? float_of_nat numericCount)%float.

Section DataConfig.

(** [Number::toString], the decimal text of a number, is a builtin the model
    leaves open. *)
Variable Number_toString : float -> JSString.

(** [String(c)] *)
Definition String_ (c : Cell) : JSString :=
  match c with
  | Undefined => js "undefined"
  | Null => js "null"
  | Str s => s
  | Num x => Number_toString x
  | Bool true => js "true"
  | Bool false => js "false"
  end.

(** The callback of [firstRow.forEach] in [detectHeaderRow]; the state is
    [(stringCount, numberCount)]. *)
Definition headerStep (counts : nat * nat) (cell : Cell) (_ : nat) : nat * nat :=
  let '(stringCount, numberCount) := counts in
  if isNullish cell then counts
  else if isString cell && isNaN (parseFloat (String_ cell)) then
    (S stringCount, numberCount)
  else if isNumber cell || negb (isNaN (parseFloat (String_ cell))) then
    (stringCount, S numberCount)
  else counts.

Definition detectHeaderRow (rows : Table) : bool :=
  match rows with
  | [] => false
  | firstRow :: _ =>
      let '(stringCount, numberCount) := forEach headerStep firstRow (0, 0) in
      (0 <? stringCount) && (numberCount <=? stringCount)
  end.

(** The template [`欄位 ${String.fromCharCode(65 + i)}`]. *)
Definition columnLabel (i : nat) : JSString :=
  [27396; 20301; 32]%N ++ fromCharCode (65 + i).

(** The template [`列 ${rowIdx + 1}`]. *)
Definition rowLabel (rowIdx : nat) : JSString :=
  [21015; 32]%N ++ Number_toString (float_of_nat (rowIdx + 1)).

(** The [headers] of the memo. *)
Definition headersOf (rows : Table) (hasHeaderRow : bool) : list JSString :=
  match hasHeaderRow, rows with
  | true, row0 :: _ =>
      map (fun h => String_ (if isNullish h then Str [] else h)) row0
  | _, _ =>
      let maxCols := fold_right Nat.max 0 (map length (take 10 rows)) in
      map columnLabel (seq 0 maxCols)
  end.

(** The [dataRows] of the memo. *)
Definition dataRowsOf (rows : Table) (hasHeaderRow : bool) : Table :=
  match hasHeaderRow, rows with
  | true, _ :: rest => rest
  | _, _ => rows
  end.

(** [typeof cell === 'number' ||
     (typeof cell === 'string' && !isNaN(parseFloat(cell)))] *)
Definition isNumericCell (cell : Cell) : bool :=
  match cell with
  | Num _ => true
  | Str s => negb (isNaN (parseFloat s))
  | _ => false
  end.

(** The count that the inner [forEach] of the selection effect keeps. *)
Definition countNumeric (numericCount : nat) (cell : Cell) : nat :=
  if isNumericCell cell then S numericCount else numericCount.

(** The effect that fills [selectedItems] whenever [orientation], [headers]
    or [dataRows] change. *)
Definition autoSelect (orientation : DataOrientation)
  (headers : list JSString) (dataRows : Table) : JSSet :=
  match orientation with
  | Columns =>
      forEach (fun newSelected _ colIdx =>
        let checkRows := take 20 dataRows in
        let numericCount :=
          forEach (fun numericCount row _ =>
                     countNumeric numericCount (cellAt row colIdx))
                  checkRows 0 in
        if (0 <? length checkRows)
           && moreThan30Percent numericCount (length checkRows)
        then setAdd newSelected colIdx else newSelected)
        headers []
  | Rows =>
      forEach (fun newSelected row rowIdx =>
        let numericCount :=
          forEach (fun numericCount cell _ => countNumeric numericCount cell)
                  (drop 1 row) 0 in
        if (1 <? length row)
           && moreThan30Percent numericCount (length row - 1)
        then setAdd newSelected rowIdx else newSelected)
        dataRows []
  end.

(** The default selection of a table under a header decision. *)
Definition defaultSelection (rows : Table) (hasHeaderRow : bool)
  (orientation : DataOrientation) : JSSet :=
  autoSelect orientation (headersOf rows hasHeaderRow)
             (dataRowsOf rows hasHeaderRow).

Definition toggleItem (prev : JSSet) (idx : nat) : JSSet :=
  if setHas prev idx then setDelete prev idx else setAdd prev idx.

Definition selectAll (orientation : DataOrientation)
  (headers : list JSString) (dataRows : Table) : JSSet :=
  match orientation with
  | Columns => newSet (seq 0 (length headers))
  | Rows => newSet (seq 0 (length dataRows))
  end.

Definition deselectAll : JSSet := newSet [].

(** The number pushed for one cell. *)
Definition coerceCell (cell : Cell) : float :=
  match cell with
  | Num x => x
  | Str s => let parsed := parseFloat s in if isNaN parsed then nan else parsed
  | _ => nan
  end.

(** [values.filter(v => !isNaN(v)).length] *)
Definition countValid (values : list float) : nat :=
  length (List.filter (fun v => negb (isNaN v)) values).

(** The guarded [variables.push({ name, values })]. *)
Definition pushIfValid (variables : list (VariableData float))
  (name : JSString) (values : list float) : list (VariableData float) :=
  if 2 <=? countValid values then variables ++ [mkVariableData name values]
  else variables.

(** The callback of [selectedItems.forEach] under [columns]. *)
Definition extractColumn (headers : list JSString) (dataRows : Table)
  (variables : list (VariableData float)) (colIdx : nat)
  : list (VariableData float) :=
  let values :=
    forEach (fun values row _ => values ++ [coerceCell (cellAt row colIdx)])
            dataRows [] in
  let header := match headers !! colIdx with Some h => h | None => [] end in
  pushIfValid variables (orElse header (columnLabel colIdx)) values.

(** The callback of [selectedItems.forEach] under [rows]. *)
Definition extractRow (dataRows : Table)
  (variables : list (VariableData float)) (rowIdx : nat)
  : list (VariableData float) :=
  match dataRows !! rowIdx with
  | None => variables
  | Some row =>
      let first := cellAt row 0 in
      let label :=
        String_ (if isNullish first then Str (rowLabel rowIdx) else first) in
      let values :=
        fold_left (fun values colIdx =>
                     values ++ [coerceCell (cellAt row colIdx)])
                  (seq 1 (length row - 1)) [] in
      pushIfValid variables label values
  end.

Definition handleAnalyze (rows : Table) (hasHeaderRow : bool)
  (orientation : DataOrientation) (selectedItems : JSSet) : AnalyzeOutcome :=
  if length selectedItems <? 2 then AlertSelection
  else
    let headers := headersOf rows hasHeaderRow in
    let dataRows := dataRowsOf rows hasHeaderRow in
    let variables :=
      match orientation with
      | Columns => fold_left (extractColumn headers dataRows) selectedItems []
      | Rows => fold_left (extractRow dataRows) selectedItems []
      end in
    if length variables <? 2 then AlertData else OnAnalyze variables.

(** [App.tsx]: the analysis that a press of the button starts, when it
    starts one. *)
Definition analyze (rows : Table) (hasHeaderRow : bool)
  (orientation : DataOrientation) (selectedItems : JSSet)
  : option (Completion (Matrix float)) :=
  match handleAnalyze rows hasHeaderRow orientation selectedItems with
  | OnAnalyze variables => Some (generateCorrelationMatrix variables)
  | _ => None
  end.

End DataConfig.

(** The text that each alert of [handleAnalyze] shows. *)
Definition alertText (outcome : AnalyzeOutcome) : option JSString :=
  match outcome with
  | AlertSelection =>
      Some [35531; 33267; 23569; 36984; 25799; 32; 50; 32; 20491; 38917;
            30446; 36914; 34892; 20998; 26512]%N
  | AlertData =>
      Some [36984; 25799; 30340; 38917; 30446; 20013; 65292; 26377; 25928;
            25976; 20540; 36039; 26009; 19981; 36275; 12290; 35531; 30906;
            35469; 33267; 23569; 26377; 32; 50; 32; 20491; 38917; 30446;
            21253; 21547; 25976; 20540; 12290]%N
  | OnAnalyze _ => None
  end.

(* ================================================================== *)
(** * [components/DataConfig.tsx], the earlier component

    The file also holds the component as it was before orientations: columns
    only, the selection computed once, when the component mounts.  What it
    shares word for word with the later component ([detectHeaderRow],
    [dataRows], the toggle) is not repeated. *)

Module Legacy.
Section DataConfig.
Variable Number_toString : float -> JSString.

(** [Math.max(...l)]: without argument it is [-Infinity], here [None]. *)
Definition mathMax (l : list nat) : option nat :=
  match l with
  | [] => None
  | n :: l' => Some (fold_left Nat.max l' n)
  end.

(** The length [Array.from({ length }, ...)] reads: [-Infinity] is 0. *)
Definition toLength (n : option nat) : nat :=
  match n with Some k => k | None => 0 end.

Definition headersOf (rows : Table) (hasHeaderRow : bool) : list JSString :=
  match hasHeaderRow, rows with
  | true, row0 :: _ =>
      map (fun h => String_ Number_toString
                      (if isNullish h then Str [] else h)) row0
  | _, _ =>
      let maxCols := mathMax (map length (take 10 rows)) in
      map columnLabel (seq 0 (toLength maxCols))
  end.

(** The initial value of [selectedColumns]. *)
Definition initialSelectedColumns (rows : Table) (hasHeaderRow : bool)
  : JSSet :=
  let headers := headersOf rows hasHeaderRow in
  let checkRows := take 20 (if hasHeaderRow then drop 1 rows else rows) in
  forEach (fun numericCols _ colIdx =>
    let numericCount :=
      forEach (fun numericCount row _ =>
                 countNumeric numericCount (cellAt row colIdx))
              checkRows 0 in
    if moreThan30Percent numericCount (length checkRows)
    then setAdd numericCols colIdx else numericCols)
    headers [].

Definition selectAll (headers : list JSString) : JSSet :=
  newSet (seq 0 (length headers)).

(** The callback of [dataRows.forEach] in [handleAnalyze]. *)
Definition pushCell (colIdx : nat) (values : list float) (row : Row)
  (_ : nat) : list float :=
  match cellAt row colIdx with
  | Num x => values ++ [x]
  | Str s =>
      let parsed := parseFloat s in
      if negb (isNaN parsed) then values ++ [parsed] else values ++ [nan]
  | _ => values ++ [nan]
  end.

(** What a press of the button does: an alert with its text, or the call
    of [onAnalyze]. *)
Inductive Outcome :=
  | Alert (message : JSString)
  | CallOnAnalyze (variables : list (VariableData float)).

(** The two alert texts of the earlier component. *)
Definition selectionAlert : JSString :=
  [35531; 33267; 23569; 36984; 25799; 32; 50; 32; 20491; 27396; 20301;
   36914; 34892; 20998; 26512]%N.

Definition dataAlert : JSString :=
  [36984; 25799; 30340; 27396; 20301; 20013; 65292; 26377; 25928; 25976;
   20540; 36039; 26009; 19981; 36275; 12290; 35531; 30906; 35469; 33267;
   23569; 26377; 32; 50; 32; 20491; 27396; 20301; 21253; 21547; 25976;
   20540; 12290]%N.

Definition handleAnalyze (rows : Table) (hasHeaderRow : bool)
  (selectedColumns : JSSet) : Outcome :=
  if length selectedColumns <? 2 then Alert selectionAlert
  else
    let headers := headersOf rows hasHeaderRow in
    let dataRows := dataRowsOf rows hasHeaderRow in
    let variables :=
      fold_left (fun variables colIdx =>
        let values := forEach (pushCell colIdx) dataRows [] in
        let header :=
          match headers !! colIdx with Some h => h | None => [] end in
        pushIfValid variables (orElse header (columnLabel colIdx)) values)
        selectedColumns [] in
    if length variables <? 2 then Alert dataAlert
    else CallOnAnalyze variables.

End DataConfig.
End Legacy.

(* ================================================================== *)
(** * [components/CorrelationMatrix.tsx] *)

Module CorrelationMatrix.

(** [Math.abs(value) > 0.5 ? 'white' : '#1e293b'] *)
Definition getTextColor (value : float) : JSString :=
  if (0.5 <? abs value)%float then js "white" else js "#1e293b".

(** [array.map((element, index) => ...)] with a callback that can throw. *)
Fixpoint mapFromM {A B} (f : A -> nat -> Completion B) (l : list A)
  (index : nat) : Completion (list B) :=
  match l with
  | [] => Normal []
  | a :: l' =>
      b ← f a index;
      bs ← mapFromM f l' (S index);
      Normal (b :: bs)
  end.

(** [allData], the rows that [handleExport('csv')] hands to the sheet
    writer: the header row, then one row per variable.  Spreading
    [grid[i]] throws when the grid has no row [i]. *)
Definition csvData (matrix : Matrix float) : Completion (list (list Cell)) :=
  let headerRow := Str [35722; 25976]%N :: map Str (variables matrix) in
  dataRows ← mapFromM (fun v i =>
                match grid matrix !! i with
                | Some row => Normal (Str v :: map Num row)
                | None => Throw TypeError
                end)
              (variables matrix) 0;
  Normal (headerRow :: dataRows).

End CorrelationMatrix.

(* ================================================================== *)
(** * [App.tsx] and [components/FileUpload.tsx] *)

(** [handleAnalyze] of the configuration component; [App] has a handler of
    the same name. *)
Definition configHandleAnalyze := handleAnalyze.

Module App.

Inductive Step := upload | config | result.

Record ParsedData := mkParsedData {
  headers : list JSString;
  rows : Table
}.

(** The four state variables of [App]. *)
Record AppState := mkAppState {
  step : Step;
  parsedData : option ParsedData;
  fileName : JSString;
  matrix : option (Matrix float)
}.

Definition initialState : AppState := mkAppState upload None [] None.

Definition handleDataLoaded (data : ParsedData) (name : JSString)
  (st : AppState) : AppState :=
  mkAppState config (Some data) name (matrix st).

(** An exception of [generateCorrelationMatrix] would leave the handler
    before the two setters. *)
Definition handleAnalyze (variables : list (VariableData float))
  (st : AppState) : AppState :=
  match generateCorrelationMatrix variables with
  | Normal result_ => mkAppState result (parsedData st) (fileName st)
                                 (Some result_)
  | Throw _ => st
  end.

Definition handleReset (st : AppState) : AppState :=
  mkAppState upload None [] None.

(** What [reader.onload] of [FileUpload] does with the decoded sheet
    [jsonData]: the error message for an empty sheet, else
    [onDataLoaded({ headers: [], rows: jsonData }, file.name)]. *)
Definition processFile (jsonData : Table) (name : JSString) (st : AppState)
  : option AppState :=
  if length jsonData =? 0 then None
  else Some (handleDataLoaded (mkParsedData [] jsonData) name st).

(** Which of the three views [App] renders, if any. *)
Definition view (st : AppState) : option Step :=
  match step st with
  | upload => Some upload
  | config => match parsedData st with Some _ => Some config | None => None end
  | result => match matrix st with Some _ => Some result | None => None end
  end.

(** One event of the interface.  A file is read asynchronously:
    [reader.onload] runs when the read completes, whatever [App] shows by
    then, and [handleDataLoaded] has no guard.  The configuration view can
    start an analysis with the variables its [handleAnalyze] passes on, for
    some header decision, orientation and selection; the reset button shows
    outside the upload view. *)
Inductive transition (Number_toString : float -> JSString)
  : AppState -> AppState -> Prop :=
| fileLoaded st jsonData name st' :
    processFile jsonData name st = Some st' ->
    transition Number_toString st st'
| analysisStarted st data hasHeaderRow orientation sel variables :
    view st = Some config ->
    parsedData st = Some data ->
    configHandleAnalyze Number_toString (rows data) hasHeaderRow
      orientation sel = OnAnalyze variables ->
    transition Number_toString st (handleAnalyze variables st)
| resetPressed st :
    step st <> upload ->
    transition Number_toString st (handleReset st).

(** The states the interface can reach. *)
Inductive reachable (Number_toString : float -> JSString)
  : AppState -> Prop :=
| reachable_initial : reachable Number_toString initialState
| reachable_step st st' :
    reachable Number_toString st ->
    transition Number_toString st st' ->
    reachable Number_toString st'.

End App.

(* ================================================================== *)
(** * The correlation engine as the specification words it *)

Section PearsonSpec.
Context {T : Type} {ops : NumberOps T}.
Local Open Scope number_scope.

(** The pair at position [i], when both sides are present and finite. *)
Definition validPair (a b : list T) (i : nat) : option (T * T) :=
  match a !! i, b !! i with
  | Some x, Some y =>
      if num_isFinite x && num_isFinite y then Some (x, y) else None
  | _, _ => None
  end.

(** The valid pairs among the positions below the longer length, in order. *)
Definition validPairs (a b : list T) : list (T * T) :=
  omap (validPair a b) (seq 0 (Nat.max (length a) (length b))).

(** A sum, accumulated from zero in position order. *)
Definition total (l : list T) : T := fold_left num_add l num_zero.

(** The six accumulated quantities of a list of pairs. *)
Definition pairCount (ps : list (T * T)) : T := num_of_nat (length ps).
Definition sumA (ps : list (T * T)) : T := total (map fst ps).
Definition sumB (ps : list (T * T)) : T := total (map snd ps).
Definition sumAB (ps : list (T * T)) : T :=
  total (map (fun p => fst p * snd p) ps).
Definition sumAA (ps : list (T * T)) : T :=
  total (map (fun p => fst p * fst p) ps).
Definition sumBB (ps : list (T * T)) : T :=
  total (map (fun p => snd p * snd p) ps).

(** [k * Sab - Sa * Sb] *)
Definition numeratorOf (ps : list (T * T)) : T :=
  pairCount ps * sumAB ps - sumA ps * sumB ps.

(** [sqrt ((k * Saa - Sa^2) * (k * Sbb - Sb^2))] *)
Definition denominatorOf (ps : list (T * T)) : T :=
  num_sqrt ((pairCount ps * sumAA ps - sumA ps * sumA ps)
            * (pairCount ps * sumBB ps - sumB ps * sumB ps)).

Definition pearson (a b : list T) : option T :=
  let ps := validPairs a b in
  if length ps <? 2 then None
  else if denominatorOf ps === num_zero then Some num_zero
  else Some (numeratorOf ps / denominatorOf ps).

(** The entry of the matrix at [(i, j)] as [buildMatrix] words it. *)
Definition coefficient (data : list (VariableData T)) (i j : nat) : T :=
  if i =? j then num_one
  else
    match data !! Nat.min i j, data !! Nat.max i j with
    | Some di, Some dj =>
        orZero (calculatePearsonCorrelation (values di) (values dj))
    | _, _ => num_zero
    end.

End PearsonSpec.

(* ================================================================== *)
(** * Structure inference and extraction as the specification words them *)

Definition countIf {A} (p : A -> bool) (l : list A) : nat :=
  length (List.filter p l).

(** A cell that is present, textual, and fails numeric coercion. *)
Definition stringLike (cell : Cell) : bool :=
  negb (isNullish cell) && isString cell && isNaN (coerceCell cell).

(** A cell that is numeric, or textual and numeric-coercible. *)
Definition numberLike (cell : Cell) : bool :=
  isNumber cell || (isString cell && negb (isNaN (coerceCell cell))).

(** Header inference: row 0 alone decides, by its counts [S] and [N]. *)
Definition headerPresent (rows : Table) : bool :=
  let row0 := match rows with row :: _ => row | [] => [] end in
  let S := countIf stringLike row0 in
  let N := countIf numberLike row0 in
  (0 <? S) && (N <=? S).

(** A cell that coerces to a finite number. *)
Definition coercesToFinite (cell : Cell) : bool :=
  PrimFloat.is_finite (coerceCell cell).

(** The number of finite values of a series. *)
Definition countFinite (values : list float) : nat :=
  countIf PrimFloat.is_finite values.

(** The positions of [l], from [index] on, that [p] selects. *)
Fixpoint selectFrom {A} (p : A -> nat -> bool) (l : list A) (index : nat)
  : list nat :=
  match l with
  | [] => []
  | a :: l' =>
      (if p a index then [index] else []) ++ selectFrom p l' (S index)
  end.

(** The cells of column [colIdx] in the rows [sample]. *)
Definition columnCells (sample : Table) (colIdx : nat) : list Cell :=
  map (fun row => cellAt row colIdx) sample.

(** Whether the selection effect takes column [colIdx]. *)
Definition columnSelected (dataRows : Table) (colIdx : nat) : bool :=
  let checkRows := take 20 dataRows in
  (0 <? length checkRows)
  && moreThan30Percent (countIf isNumericCell (columnCells checkRows colIdx))
                       (length checkRows).

(** Whether the selection effect takes the row [row]. *)
Definition rowSelected (row : Row) : bool :=
  (1 <? length row)
  && moreThan30Percent (countIf isNumericCell (drop 1 row)) (length row - 1).

Section ExtractionSpec.
Variable Number_toString : float -> JSString.

(** The series read down column [colIdx]. *)
Definition columnSeries (headers : list JSString) (dataRows : Table)
  (colIdx : nat) : VariableData float :=
  mkVariableData
    (orElse (match headers !! colIdx with Some h => h | None => [] end)
            (columnLabel colIdx))
    (map coerceCell (columnCells dataRows colIdx)).

(** The series read across row [rowIdx], when the table has that row. *)
Definition rowSeries (dataRows : Table) (rowIdx : nat)
  : option (VariableData float) :=
  match dataRows !! rowIdx with
  | None => None
  | Some row =>
      let first := cellAt row 0 in
      Some (mkVariableData
              (String_ Number_toString
                 (if isNullish first then Str (rowLabel Number_toString rowIdx)
                  else first))
              (map coerceCell (drop 1 row)))
  end.

(** The series of one selected index. *)
Definition seriesAt (rows : Table) (hasHeaderRow : bool)
  (orientation : DataOrientation) (i : nat) : option (VariableData float) :=
  match orientation with
  | Columns =>
      Some (columnSeries (headersOf Number_toString rows hasHeaderRow)
                         (dataRowsOf rows hasHeaderRow) i)
  | Rows => rowSeries (dataRowsOf rows hasHeaderRow) i
  end.

(** One series per selected index, in the order the selection iterates. *)
Definition candidateSeries (rows : Table) (hasHeaderRow : bool)
  (orientation : DataOrientation) (selectedItems : JSSet)
  : list (VariableData float) :=
  match orientation with
  | Columns =>
      map (columnSeries (headersOf Number_toString rows hasHeaderRow)
                        (dataRowsOf rows hasHeaderRow))
          selectedItems
  | Rows => omap (rowSeries (dataRowsOf rows hasHeaderRow)) selectedItems
  end.

(** The post-filter, as the program applies it. *)
Definition survives (v : VariableData float) : bool :=
  2 <=? countValid (values v).

Definition survivingSeries (rows : Table) (hasHeaderRow : bool)
  (orientation : DataOrientation) (selectedItems : JSSet)
  : list (VariableData float) :=
  List.filter survives
    (candidateSeries rows hasHeaderRow orientation selectedItems).

End ExtractionSpec.

(* ================================================================== *)
(** * Sums over the reals *)

Section ExactSums.
Local Open Scope R_scope.

Definition Rtotal (l : list R) : R := fold_right Rplus 0 l.

(** The three quantities under the formula, over the reals. *)
Definition varA (ps : list (R * R)) : R :=
  INR (length ps) * Rtotal (map (fun p => fst p * fst p) ps)
  - Rtotal (map fst ps) * Rtotal (map fst ps).
Definition varB (ps : list (R * R)) : R :=
  INR (length ps) * Rtotal (map (fun p => snd p * snd p) ps)
  - Rtotal (map snd ps) * Rtotal (map snd ps).
Definition covAB (ps : list (R * R)) : R :=
  INR (length ps) * Rtotal (map (fun p => fst p * snd p) ps)
  - Rtotal (map fst ps) * Rtotal (map snd ps).

End ExactSums.

(** A pair of reals as a pair of exact numbers. *)
Definition liftPair (p : R * R) : XR * XR := (XReal (fst p), XReal (snd p)).

(** * Right shifts of a binary64 rounding

    [SpecFloat] rounds a mantissa by shifting it right one bit at a time
    while it keeps a round bit and a sticky bit.  After [k] shifts of [M] the
    record holds the quotient by [2^k], and its two bits place the remainder
    against half of [2^k]. *)
Definition shr_inv (M k : Z) (mrs : shr_record) : Prop :=
  let rem := (M - shr_m mrs * 2 ^ k)%Z in
  (0 <= shr_m mrs)%Z /\ (0 <= rem < 2 ^ k)%Z /\
  shr_r mrs = (2 ^ k <=? 2 * rem)%Z /\
  shr_s mrs = negb ((rem =? 0) || (2 * rem =? 2 ^ k))%Z.

(* ================================================================== *)
(** * Example inputs *)

(** A column [10, "abc", 30] beside a numeric column, without header. *)
Definition placeholderTable : Table :=
  [[Num 10; Num 1]; [Str (js "abc"); Num 2]; [Num 30; Num 3]].

(** The examples instantiate [Number_toString] with this rendering; none of
    them has a number rendered as text. *)
Definition blankNumberText (x : float) : JSString := [].

(** The sales table of the specification, with a textual cell added. *)
Definition salesTable : Table :=
  [[Str (js "Month"); Str (js "Sales"); Str (js "Visitors")];
   [Str (js "Jan"); Num 100; Num 10];
   [Str (js "Feb"); Str (js "abc"); Num 20];
   [Str (js "Mar"); Num 300; Num 40]].

(** ** Loop invariants of [generateCorrelationMatrix] *)

(** An [n] by [n] grid. *)
Definition square {T} (n : nat) (g : list (list T)) : Prop :=
  length g = n /\ forall a row, g !! a = Some row -> length row = n.

(** The cells that hold their final value once the loops stand at row [i],
    column [j]. *)
Definition settled (i j a b : nat) : Prop :=
  Nat.min a b < i \/ (Nat.min a b = i /\ Nat.max a b < j).

Definition gridInv {T} {ops : NumberOps T} (data : list (VariableData T))
  (i j : nat) (g : list (list T)) : Prop :=
  square (length data) g /\
  forall a b, a < length data -> b < length data -> settled i j a b ->
    gridAt g a b = Some (coefficient data a b).

(* ================================================================== *)
(** * Properties of [generateCorrelationMatrix] *)

Section MatrixFacts.
Context {T : Type} {ops : NumberOps T}.

Lemma square_zeroGrid n : square n (zeroGrid (T := T) n).
Proof.
  split.
  - apply length_replicate.
  - intros a row Ha. apply lookup_replicate in Ha as [-> _].
    apply length_replicate.
Qed.

(** A write inside a square grid completes, keeps the shape, and changes
    the one cell. *)
Lemma gridSet_square n (g : list (list T)) i j v :
  square n g -> i < n -> j < n ->
  exists g', gridSet g i j v = Normal g' /\ square n g' /\
    gridAt g' i j = Some v /\
    forall a b, (a, b) <> (i, j) -> gridAt g' a b = gridAt g a b.
Proof.
  intros [Hlen Hrows] Hi Hj.
  destruct (lookup_lt_is_Some_2 g i) as [row Hrow]; [lia|].
  pose proof (Hrows _ _ Hrow) as Hrl.
  unfold gridSet. rewrite Hrow.
  destruct (Nat.ltb_spec j (length row)); [|lia].
  eexists. split; [reflexivity|]. repeat split.
  - rewrite length_insert. exact Hlen.
  - intros a r Ha.
    destruct (decide (i = a)) as [->|Hne].
    + rewrite list_lookup_insert_eq in Ha by lia.
      injection Ha as <-. rewrite length_insert. exact Hrl.
    + rewrite list_lookup_insert_ne in Ha by exact Hne. eauto.
  - unfold gridAt. rewrite list_lookup_insert_eq by lia.
    apply list_lookup_insert_eq. lia.
  - intros a b Hab. unfold gridAt.
    destruct (decide (i = a)) as [->|Hne].
    + rewrite list_lookup_insert_eq by lia. rewrite Hrow.
      apply list_lookup_insert_ne. congruence.
    + rewrite list_lookup_insert_ne by exact Hne. reflexivity.
Qed.

(** A loop over [lo, lo + len) that keeps an invariant completes. *)
Lemma forM_seq_invariant {St} (body : St -> nat -> Completion St)
  (P : nat -> St -> Prop) len :
  forall lo s,
  (forall k s0, lo <= k < lo + len -> P k s0 ->
     exists s1, body s0 k = Normal s1 /\ P (S k) s1) ->
  P lo s ->
  exists s', forM body (seq lo len) s = Normal s' /\ P (lo + len) s'.
Proof.
  induction len as [|len IH]; intros lo s Hbody HP; simpl.
  - exists s. rewrite Nat.add_0_r. auto.
  - destruct (Hbody lo s) as (s1 & -> & HP1); [lia|exact HP|].
    destruct (IH (S lo) s1) as (s' & Hs' & HP'); [|exact HP1|].
    + intros k s0 Hk. apply Hbody. lia.
    + exists s'. split; [exact Hs'|].
      replace (lo + S len) with (S lo + len) by lia. exact HP'.
Qed.

Lemma coefficient_diag (data : list (VariableData T)) i :
  coefficient data i i = num_one.
Proof. unfold coefficient. rewrite Nat.eqb_refl. reflexivity. Qed.

Lemma coefficient_sym (data : list (VariableData T)) i j :
  coefficient data i j = coefficient data j i.
Proof.
  unfold coefficient. rewrite (Nat.eqb_sym j i).
  rewrite (Nat.min_comm j i), (Nat.max_comm j i). reflexivity.
Qed.

Lemma coefficient_upper (data : list (VariableData T)) i j di dj :
  i < j -> data !! i = Some di -> data !! j = Some dj ->
  coefficient data i j =
  orZero (calculatePearsonCorrelation (values di) (values dj)).
Proof.
  intros Hij Hi Hj. unfold coefficient.
  destruct (Nat.eqb_spec i j); [lia|].
  rewrite Nat.min_l, Nat.max_r by lia. rewrite Hi, Hj. reflexivity.
Qed.

(** One turn of the inner loop settles the cells of the pair [(i, j)]. *)
Lemma cellStep_invariant (data : list (VariableData T)) i j g :
  i < length data -> j < length data ->
  gridInv data i j g ->
  exists g', cellStep data i g j = Normal g' /\ gridInv data i (S j) g'.
Proof.
  intros Hi Hj [Hsq Hval]. unfold cellStep.
  destruct (Nat.eqb_spec i j) as [->|Hne].
  - destruct (gridSet_square _ g j j num_one Hsq Hj Hj)
      as (g' & -> & Hsq' & Hjj & Hother).
    exists g'. split; [reflexivity|]. split; [exact Hsq'|].
    intros a b Ha Hb Hs.
    destruct (decide ((a, b) = (j, j))) as [[= -> ->]|Hab].
    + rewrite Hjj, coefficient_diag. reflexivity.
    + rewrite Hother by exact Hab. apply Hval; [lia|lia|].
      unfold settled in *.
      assert (a <> j \/ b <> j) by (destruct (decide (a = j)); [right|left]; congruence).
      lia.
  - destruct (Nat.ltb_spec i j) as [Hlt|Hge].
    + destruct (lookup_lt_is_Some_2 data i Hi) as [di Hdi].
      destruct (lookup_lt_is_Some_2 data j Hj) as [dj Hdj].
      unfold valuesAt. rewrite Hdi, Hdj. simpl.
      set (val := orZero _).
      destruct (gridSet_square _ g i j val Hsq Hi Hj)
        as (g1 & -> & Hsq1 & Hij1 & Hother1). simpl.
      destruct (gridSet_square _ g1 j i val Hsq1 Hj Hi)
        as (g2 & -> & Hsq2 & Hji2 & Hother2).
      exists g2. split; [reflexivity|]. split; [exact Hsq2|].
      intros a b Ha Hb Hs.
      destruct (decide ((a, b) = (j, i))) as [[= -> ->]|Hab2].
      * rewrite Hji2, coefficient_sym.
        rewrite (coefficient_upper data i j di dj) by assumption. reflexivity.
      * rewrite Hother2 by exact Hab2.
        destruct (decide ((a, b) = (i, j))) as [[= -> ->]|Hab1].
        -- rewrite Hij1.
           rewrite (coefficient_upper data i j di dj) by assumption. reflexivity.
        -- rewrite Hother1 by exact Hab1. apply Hval; [lia|lia|].
           unfold settled in *.
           assert (a <> j \/ b <> i) by (destruct (decide (a = j)); [right|left]; congruence).
           assert (a <> i \/ b <> j) by (destruct (decide (a = i)); [right|left]; congruence).
           lia.
    + exists g. split; [reflexivity|]. split; [exact Hsq|].
      intros a b Ha Hb Hs. apply Hval; [lia|lia|].
      unfold settled in *. lia.
Qed.

(** One turn of the outer loop settles row [i] and column [i]. *)
Lemma rowStep_invariant (data : list (VariableData T)) i g :
  i < length data ->
  gridInv data i 0 g ->
  exists g', rowStep data (length data) g i = Normal g' /\
    gridInv data (S i) 0 g'.
Proof.
  intros Hi Hinv. unfold rowStep.
  destruct (forM_seq_invariant (cellStep data i)
              (fun j g0 => gridInv data i j g0) (length data) 0 g)
    as (g' & Hg' & [Hsq Hval]).
  - intros k g0 Hk Hg0. apply cellStep_invariant; [lia|lia|exact Hg0].
  - exact Hinv.
  - exists g'. split; [exact Hg'|]. split; [exact Hsq|].
    intros a b Ha Hb Hs. apply Hval; [lia|lia|].
    unfold settled in *. simpl. lia.
Qed.

(** The function completes, and every cell holds its coefficient. *)
Lemma generateCorrelationMatrix_grid (data : list (VariableData T)) :
  exists g,
    generateCorrelationMatrix data = Normal (mkMatrix (map name data) g) /\
    square (length data) g /\
    forall a b, a < length data -> b < length data ->
      gridAt g a b = Some (coefficient data a b).
Proof.
  unfold generateCorrelationMatrix. rewrite length_map.
  destruct (forM_seq_invariant (rowStep data (length data))
              (fun i g0 => gridInv data i 0 g0) (length data) 0
              (zeroGrid (length data)))
    as (g & Hg & [Hsq Hval]).
  - intros k g0 Hk Hg0. apply rowStep_invariant; [lia|exact Hg0].
  - split; [apply square_zeroGrid|].
    intros a b _ _ Hs. unfold settled in Hs. lia.
  - exists g. rewrite Hg. simpl. split; [reflexivity|]. split; [exact Hsq|].
    intros a b Ha Hb. apply Hval; [lia|lia|].
    unfold settled. simpl. lia.
Qed.

End MatrixFacts.

(* ================================================================== *)
(** * Properties of [calculatePearsonCorrelation] *)

Section PearsonFacts.
Context {T : Type} {ops : NumberOps T}.
Local Open Scope number_scope.

(** The accumulators after the pairs [ps], from the accumulators [acc]. *)
Lemma pearsonStep_validPair (x y : list T) acc i :
  pearsonStep x y acc i =
  match validPair x y i with
  | Some p => addPair acc (fst p) (snd p)
  | None => acc
  end.
Proof.
  unfold pearsonStep, validPair.
  destruct (x !! i) as [xi|]; [|reflexivity].
  destruct (y !! i) as [yi|]; [|reflexivity].
  destruct (num_isFinite xi), (num_isFinite yi); reflexivity.
Qed.

Lemma fold_pearsonStep (x y : list T) l :
  forall acc,
  fold_left (pearsonStep x y) l acc =
  fold_left (fun a p => addPair a (fst p) (snd p))
            (omap (validPair x y) l) acc.
Proof.
  induction l as [|i l IH]; intros acc; [reflexivity|].
  cbn [fold_left omap list_omap]. rewrite pearsonStep_validPair.
  destruct (validPair x y i) as [p|]; apply IH.
Qed.

Lemma fold_addPair (ps : list (T * T)) :
  forall acc,
  let acc' := fold_left (fun a p => addPair a (fst p) (snd p)) ps acc in
  sumX acc' = fold_left num_add (map fst ps) (sumX acc) /\
  sumY acc' = fold_left num_add (map snd ps) (sumY acc) /\
  sumXY acc' =
    fold_left num_add (map (fun p => fst p * snd p) ps) (sumXY acc) /\
  sumXSq acc' =
    fold_left num_add (map (fun p => fst p * fst p) ps) (sumXSq acc) /\
  sumYSq acc' =
    fold_left num_add (map (fun p => snd p * snd p) ps) (sumYSq acc) /\
  validCount acc' = (length ps + validCount acc)%nat.
Proof.
  induction ps as [|p ps IH]; intros acc; simpl.
  - repeat split; reflexivity.
  - destruct (IH (addPair acc (fst p) (snd p))) as (H1 & H2 & H3 & H4 & H5 & H6).
    simpl in *. rewrite H1, H2, H3, H4, H5, H6.
    repeat split; try reflexivity. lia.
Qed.

(** The loop computes the sums of the valid pairs. *)
Lemma pearson_loop (x y : list T) :
  let acc := fold_left (pearsonStep x y)
               (seq 0 (Nat.max (length x) (length y))) noSums in
  let ps := validPairs x y in
  sumX acc = sumA ps /\ sumY acc = sumB ps /\ sumXY acc = sumAB ps /\
  sumXSq acc = sumAA ps /\ sumYSq acc = sumBB ps /\
  validCount acc = length ps.
Proof.
  cbv zeta. rewrite fold_pearsonStep. fold (validPairs x y).
  destruct (fold_addPair (validPairs x y) noSums) as (H1 & H2 & H3 & H4 & H5 & H6).
  simpl in *. rewrite H1, H2, H3, H4, H5, H6.
  repeat split; try reflexivity. lia.
Qed.

(** The program computes what the specification words. *)
Lemma calculatePearsonCorrelation_pearson (x y : list T) :
  calculatePearsonCorrelation x y = pearson x y.
Proof.
  unfold calculatePearsonCorrelation, pearsonResult, pearson.
  destruct (pearson_loop x y) as (H1 & H2 & H3 & H4 & H5 & H6).
  cbv zeta. rewrite H1, H2, H3, H4, H5, H6. reflexivity.
Qed.

End PearsonFacts.

(* ================================================================== *)
(** * The coefficient in exact arithmetic *)

Section ExactArithmetic.
Local Open Scope R_scope.

Lemma fold_left_Rplus l : forall a, fold_left Rplus l a = a + Rtotal l.
Proof.
  induction l as [|x l IH]; intros a; simpl.
  - lra.
  - rewrite IH. lra.
Qed.

(** The sum of the squared distances to [c], expanded. *)
Lemma squares_around l c :
  0 <= Rtotal (map (fun x => x * x) l) - 2 * c * Rtotal l
       + INR (length l) * (c * c).
Proof.
  induction l as [|x l IH].
  - simpl. lra.
  - cbn [map Rtotal fold_right length]. rewrite S_INR.
    fold (Rtotal (map (fun x => x * x) l)). fold (Rtotal l).
    pose proof (Rle_0_sqr (x - c)) as Hsq. unfold Rsqr in Hsq. nra.
Qed.

(** [k * S(c^2) - (S c)^2] is never negative. *)
Lemma variance_nonneg l :
  0 <= INR (length l) * Rtotal (map (fun x => x * x) l) - Rtotal l * Rtotal l.
Proof.
  induction l as [|x l IH].
  - simpl. lra.
  - cbn [map Rtotal fold_right length]. rewrite S_INR.
    fold (Rtotal (map (fun x => x * x) l)). fold (Rtotal l).
    pose proof (squares_around l x). nra.
Qed.

Lemma Rtotal_combination (ps : list (R * R)) s t :
  Rtotal (map (fun p => s * fst p + t * snd p) ps) =
  s * Rtotal (map fst ps) + t * Rtotal (map snd ps).
Proof.
  induction ps as [|p ps IH]; simpl.
  - lra.
  - fold (Rtotal (map (fun p => s * fst p + t * snd p) ps)).
    fold (Rtotal (map fst ps)). fold (Rtotal (map snd ps)). rewrite IH. lra.
Qed.

Lemma Rtotal_combination_sq (ps : list (R * R)) s t :
  Rtotal (map (fun x => x * x) (map (fun p => s * fst p + t * snd p) ps)) =
  s * s * Rtotal (map (fun p => fst p * fst p) ps)
  + 2 * s * t * Rtotal (map (fun p => fst p * snd p) ps)
  + t * t * Rtotal (map (fun p => snd p * snd p) ps).
Proof.
  induction ps as [|p ps IH]; simpl.
  - lra.
  - fold (Rtotal (map (fun x => x * x) (map (fun p => s * fst p + t * snd p) ps))).
    fold (Rtotal (map (fun p => fst p * fst p) ps)).
    fold (Rtotal (map (fun p => fst p * snd p) ps)).
    fold (Rtotal (map (fun p => snd p * snd p) ps)).
    rewrite IH. lra.
Qed.

Lemma quadratic_form_nonneg ps s t :
  0 <= s * s * varA ps + 2 * s * t * covAB ps + t * t * varB ps.
Proof.
  pose proof (variance_nonneg (map (fun p => s * fst p + t * snd p) ps)) as H.
  rewrite Rtotal_combination, Rtotal_combination_sq, length_map in H.
  unfold varA, varB, covAB. nra.
Qed.

Lemma varA_nonneg ps : 0 <= varA ps.
Proof. pose proof (quadratic_form_nonneg ps 1 0). lra. Qed.

Lemma varB_nonneg ps : 0 <= varB ps.
Proof. pose proof (quadratic_form_nonneg ps 0 1). lra. Qed.

(** Cauchy-Schwarz, in the form the coefficient needs. *)
Lemma covariance_bound ps : covAB ps * covAB ps <= varA ps * varB ps.
Proof.
  pose proof (varA_nonneg ps) as HA. pose proof (varB_nonneg ps) as HB.
  destruct (Req_dec (varB ps) 0) as [HB0|HB0].
  - destruct (Req_dec (covAB ps) 0) as [HC0|HC0].
    + rewrite HC0, HB0. lra.
    + exfalso.
      pose proof (quadratic_form_nonneg ps 1 (- (varA ps + 1) / (2 * covAB ps))) as H.
      rewrite HB0 in H.
      replace (2 * 1 * (- (varA ps + 1) / (2 * covAB ps)) * covAB ps)
        with (- (varA ps + 1)) in H by (field; exact HC0).
      lra.
  - pose proof (quadratic_form_nonneg ps (varB ps) (- covAB ps)) as H.
    assert (0 <= varB ps * (varA ps * varB ps - covAB ps * covAB ps)) by nra.
    assert (0 < varB ps) by lra.
    nra.
Qed.

Lemma quotient_bound c p :
  c * c <= p -> sqrt p <> 0 -> -1 <= c / sqrt p <= 1.
Proof.
  intros Hc Hs.
  assert (0 <= p) by nra.
  assert (0 < sqrt p) by (pose proof (sqrt_pos p); lra).
  pose proof (sqrt_sqrt p ltac:(assumption)) as Hpp.
  assert (- sqrt p <= c <= sqrt p) as [Hlo Hhi] by (split; nra).
  split.
  - apply Rmult_le_reg_r with (sqrt p); [assumption|].
    unfold Rdiv. rewrite Rmult_assoc, Rinv_l by exact Hs. lra.
  - apply Rmult_le_reg_r with (sqrt p); [assumption|].
    unfold Rdiv. rewrite Rmult_assoc, Rinv_l by exact Hs. lra.
Qed.

End ExactArithmetic.

Section ExactPearson.

Lemma validPair_exact (a b : list XR) i p :
  validPair a b i = Some p -> exists r, p = liftPair r.
Proof.
  unfold validPair.
  destruct (a !! i) as [[|x]|]; try discriminate;
    destruct (b !! i) as [[|y]|]; try discriminate.
  simpl. intros [= <-]. exists (x, y). reflexivity.
Qed.

Lemma omap_validPair_exact (a b : list XR) l :
  exists rs, omap (validPair a b) l = map liftPair rs.
Proof.
  induction l as [|i l [rs IH]].
  - exists []. reflexivity.
  - cbn [omap list_omap]. destruct (validPair a b i) as [p|] eqn:Hp.
    + destruct (validPair_exact _ _ _ _ Hp) as [r ->].
      exists (r :: rs). fold (omap (validPair a b) l). rewrite IH. reflexivity.
    + exists rs. exact IH.
Qed.

Lemma total_exact (f : R * R -> R) (g : XR * XR -> XR) rs :
  (forall r, g (liftPair r) = XReal (f r)) ->
  total (map g (map liftPair rs)) = XReal (Rtotal (map f rs)).
Proof.
  intros Hg. unfold total.
  assert (forall a, fold_left num_add (map g (map liftPair rs)) (XReal a)
                    = XReal (a + Rtotal (map f rs))) as H.
  { induction rs as [|r rs IH]; intros a; simpl.
    - f_equal. lra.
    - rewrite Hg. simpl. rewrite IH. f_equal.
      fold (Rtotal (map f rs)). lra. }
  simpl. rewrite H. f_equal. lra.
Qed.

(** In exact arithmetic the coefficient of two series, when defined, lies
    between -1 and 1. *)
Lemma pearson_exact_bound (a b : list XR) :
  pearson a b = None \/
  exists r, pearson a b = Some (XReal r) /\ (-1 <= r <= 1)%R.
Proof.
  unfold pearson, validPairs.
  destruct (omap_validPair_exact a b (seq 0 (Nat.max (length a) (length b))))
    as [rs ->].
  destruct (length (map liftPair rs) <? 2); [left; reflexivity|right].
  assert (denominatorOf (map liftPair rs) = XReal (sqrt (varA rs * varB rs)))
    as Hden.
  { unfold denominatorOf, pairCount, sumAA, sumBB, sumA, sumB.
    rewrite (total_exact (fun r => fst r * fst r)%R
               (fun p => fst p * fst p)%num) by reflexivity.
    rewrite (total_exact (fun r => snd r * snd r)%R
               (fun p => snd p * snd p)%num) by reflexivity.
    rewrite !(total_exact fst fst) by reflexivity.
    rewrite !(total_exact snd snd) by reflexivity.
    rewrite length_map. simpl.
    fold (varA rs). fold (varB rs).
    destruct (Rlt_dec (varA rs * varB rs) 0) as [Hneg|_]; [|reflexivity].
    pose proof (varA_nonneg rs). pose proof (varB_nonneg rs). nra. }
  assert (numeratorOf (map liftPair rs) = XReal (covAB rs)) as Hnum.
  { unfold numeratorOf, pairCount, sumAB, sumA, sumB.
    rewrite (total_exact (fun r => fst r * snd r)%R
               (fun p => fst p * snd p)%num) by reflexivity.
    rewrite !(total_exact fst fst) by reflexivity.
    rewrite !(total_exact snd snd) by reflexivity.
    rewrite length_map. reflexivity. }
  rewrite Hden, Hnum. simpl.
  destruct (Req_dec_T (sqrt (varA rs * varB rs)) 0) as [Hz|Hnz].
  - exists 0%R. split; [reflexivity|lra].
  - exists (covAB rs / sqrt (varA rs * varB rs))%R. split; [reflexivity|].
    apply quotient_bound; [apply covariance_bound|exact Hnz].
Qed.

Lemma coefficient_exact_bound (data : list (VariableData XR)) i j :
  exists r, coefficient data i j = XReal r /\ (-1 <= r <= 1)%R.
Proof.
  unfold coefficient.
  destruct (i =? j); [exists 1%R; split; [reflexivity|lra]|].
  destruct (data !! Nat.min i j) as [di|]; [|exists 0%R; split; [reflexivity|lra]].
  destruct (data !! Nat.max i j) as [dj|]; [|exists 0%R; split; [reflexivity|lra]].
  rewrite calculatePearsonCorrelation_pearson.
  destruct (pearson_exact_bound (values di) (values dj)) as [->|(r & -> & Hr)].
  - exists 0%R. split; [reflexivity|lra].
  - exists r. split; [reflexivity|exact Hr].
Qed.

End ExactPearson.

(* ================================================================== *)
(** * Properties of [components/DataConfig.tsx] *)

Section DataConfigFacts.
Variable Number_toString : float -> JSString.

(** A callback that ignores the index is a left fold. *)
Lemma forEachFrom_fold {A St} (f : St -> A -> St) l :
  forall index s, forEachFrom (fun s a _ => f s a) l index s = fold_left f l s.
Proof.
  induction l as [|a l IH]; intros index s; simpl; [reflexivity|apply IH].
Qed.

Lemma isNaN_coerce_Str s : isNaN (coerceCell (Str s)) = isNaN (parseFloat s).
Proof. simpl. destruct (isNaN (parseFloat s)) eqn:E; [reflexivity|exact E]. Qed.

Lemma headerStep_counts sc nc cell i :
  headerStep Number_toString (sc, nc) cell i =
  ((if stringLike cell then S sc else sc),
   (if numberLike cell then S nc else nc)).
Proof.
  unfold headerStep, stringLike, numberLike.
  destruct cell as [| |s|x|[|]]; try reflexivity.
  rewrite isNaN_coerce_Str. simpl.
  destruct (isNaN (parseFloat s)); reflexivity.
Qed.

Lemma forEach_headerStep row :
  forall index sc nc,
  forEachFrom (headerStep Number_toString) row index (sc, nc) =
  (countIf stringLike row + sc, countIf numberLike row + nc).
Proof.
  induction row as [|cell row IH]; intros index sc nc; [reflexivity|].
  cbn [forEachFrom]. rewrite headerStep_counts, IH.
  unfold countIf. cbn [List.filter].
  destruct (stringLike cell), (numberLike cell); simpl; f_equal; lia.
Qed.

(** The program's header inference is the specification's. *)
Lemma detectHeaderRow_headerPresent rows :
  detectHeaderRow Number_toString rows = headerPresent rows.
Proof.
  unfold detectHeaderRow, headerPresent.
  destruct rows as [|row0 rest]; [reflexivity|].
  unfold forEach. rewrite forEach_headerStep, !Nat.add_0_r. reflexivity.
Qed.

End DataConfigFacts.

Section ExtractionFacts.
Variable Number_toString : float -> JSString.

Lemma fold_left_snoc {A B} (f : A -> B) l :
  forall acc, fold_left (fun vs a => vs ++ [f a]) l acc = acc ++ map f l.
Proof.
  induction l as [|a l IH]; intros acc; simpl.
  - rewrite app_nil_r. reflexivity.
  - rewrite IH, <- app_assoc. reflexivity.
Qed.

Lemma fold_left_countNumeric {A} (f : A -> Cell) l :
  forall n,
  fold_left (fun k a => countNumeric k (f a)) l n
  = n + countIf isNumericCell (map f l).
Proof.
  induction l as [|a l IH]; intros n; simpl.
  - unfold countIf. simpl. lia.
  - rewrite IH. unfold countNumeric, countIf. simpl.
    destruct (isNumericCell (f a)); simpl; lia.
Qed.

Lemma map_cellAt_seq (row : Row) :
  map (cellAt row) (seq 0 (length row)) = row.
Proof.
  apply list_eq. intros i. rewrite list_lookup_fmap.
  destruct (row !! i) as [c|] eqn:Hc.
  - rewrite lookup_seq_lt by exact (lookup_lt_Some row i c Hc).
    simpl. unfold cellAt. rewrite Hc. reflexivity.
  - rewrite lookup_seq_ge by exact (lookup_ge_None_1 row i Hc). reflexivity.
Qed.

Lemma map_cellAt_tail (row : Row) :
  map (cellAt row) (seq 1 (length row - 1)) = drop 1 row.
Proof.
  destruct row as [|c row]; [reflexivity|].
  simpl. rewrite Nat.sub_0_r, drop_0.
  rewrite <- seq_shift, map_map. apply map_cellAt_seq.
Qed.

(** What one selected column adds to [variables]. *)
Lemma extractColumn_series headers dataRows variables colIdx :
  extractColumn headers dataRows variables colIdx =
  variables ++ List.filter survives [columnSeries headers dataRows colIdx].
Proof.
  unfold extractColumn, pushIfValid, forEach.
  rewrite (forEachFrom_fold
             (fun vs row => vs ++ [coerceCell (cellAt row colIdx)])).
  rewrite (fold_left_snoc (fun row => coerceCell (cellAt row colIdx))).
  cbn [app List.filter]. unfold survives, columnSeries, columnCells.
  cbn [values]. rewrite map_map.
  destruct (2 <=? _); [reflexivity|].
  rewrite app_nil_r. reflexivity.
Qed.

(** What one selected row adds to [variables]. *)
Lemma extractRow_series dataRows variables rowIdx :
  extractRow Number_toString dataRows variables rowIdx =
  variables ++
  List.filter survives
    (match rowSeries Number_toString dataRows rowIdx with
     | Some v => [v]
     | None => []
     end).
Proof.
  unfold extractRow, rowSeries, pushIfValid.
  destruct (dataRows !! rowIdx) as [row|]; [|rewrite app_nil_r; reflexivity].
  rewrite (fold_left_snoc (fun c => coerceCell (cellAt row c))).
  cbn [app List.filter]. unfold survives. cbn [values].
  rewrite <- (map_map (cellAt row) coerceCell), map_cellAt_tail.
  destruct (2 <=? _); [reflexivity|].
  rewrite app_nil_r. reflexivity.
Qed.

Lemma fold_extractColumn headers dataRows sel :
  forall variables,
  fold_left (extractColumn headers dataRows) sel variables =
  variables ++ List.filter survives (map (columnSeries headers dataRows) sel).
Proof.
  induction sel as [|i sel IH]; intros variables; simpl.
  - rewrite app_nil_r. reflexivity.
  - rewrite IH, extractColumn_series, <- app_assoc. f_equal.
    simpl. destruct (survives _); reflexivity.
Qed.

Lemma fold_extractRow dataRows sel :
  forall variables,
  fold_left (extractRow Number_toString dataRows) sel variables =
  variables ++
  List.filter survives (omap (rowSeries Number_toString dataRows) sel).
Proof.
  induction sel as [|i sel IH]; intros variables; simpl.
  - rewrite app_nil_r. reflexivity.
  - rewrite IH, extractRow_series, <- app_assoc. f_equal.
    destruct (rowSeries Number_toString dataRows i) as [v|]; simpl.
    + destruct (survives v); reflexivity.
    + reflexivity.
Qed.

(** [handleAnalyze] gates on the selection size, extracts one series per
    selected index in iteration order, drops those that do not survive, and
    gates on the number left. *)
Lemma handleAnalyze_surviving rows hasHeaderRow orientation sel :
  handleAnalyze Number_toString rows hasHeaderRow orientation sel =
  if length sel <? 2 then AlertSelection
  else
    let kept :=
      survivingSeries Number_toString rows hasHeaderRow orientation sel in
    if length kept <? 2 then AlertData else OnAnalyze kept.
Proof.
  unfold handleAnalyze, survivingSeries, candidateSeries.
  destruct (length sel <? 2); [reflexivity|].
  destruct orientation; cbv zeta.
  - rewrite fold_extractColumn. reflexivity.
  - rewrite fold_extractRow. reflexivity.
Qed.

(** ** The selection effect *)

Lemma setHas_In s x : setHas s x = true <-> In x s.
Proof.
  unfold setHas. rewrite existsb_exists. split.
  - intros (y & Hy & Heq). apply Nat.eqb_eq in Heq. subst. exact Hy.
  - intros Hx. exists x. split; [exact Hx|apply Nat.eqb_refl].
Qed.

Lemma setAdd_fresh s x : ~ In x s -> setAdd s x = s ++ [x].
Proof.
  intros Hx. unfold setAdd.
  destruct (setHas s x) eqn:E; [|reflexivity].
  apply setHas_In in E. contradiction.
Qed.

Lemma forEachFrom_select {A} (p : A -> nat -> bool) l :
  forall index s,
  (forall x, In x s -> x < index) ->
  forEachFrom (fun sel a i => if p a i then setAdd sel i else sel) l index s
  = s ++ selectFrom p l index.
Proof.
  induction l as [|a l IH]; intros index s Hs; simpl.
  - rewrite app_nil_r. reflexivity.
  - destruct (p a index).
    + rewrite setAdd_fresh by (intros Hin; apply Hs in Hin; lia).
      rewrite IH.
      * rewrite <- app_assoc. reflexivity.
      * intros x Hx. apply in_app_or in Hx as [Hx|[<-|[]]]; [apply Hs in Hx|]; lia.
    + rewrite IH; [reflexivity|].
      intros x Hx. apply Hs in Hx. lia.
Qed.

Lemma In_selectFrom {A} (p : A -> nat -> bool) l :
  forall index i,
  In i (selectFrom p l index) <->
  exists a, index <= i /\ l !! (i - index) = Some a /\ p a i = true.
Proof.
  induction l as [|a l IH]; intros index i; simpl.
  - split; [intros []|intros (a & _ & Ha & _); discriminate].
  - rewrite in_app_iff, IH. split.
    + intros [Hi|(b & Hle & Hb & Hp)].
      * destruct (p a index) eqn:Hpa; [|destruct Hi].
        destruct Hi as [<-|[]]. exists a.
        rewrite Nat.sub_diag. auto.
      * exists b. split; [lia|]. split; [|exact Hp].
        replace (i - index) with (S (i - S index)) by lia. exact Hb.
    + intros (b & Hle & Hb & Hp).
      destruct (decide (i = index)) as [->|Hne].
      * left. rewrite Nat.sub_diag in Hb. injection Hb as ->.
        rewrite Hp. left. reflexivity.
      * right. exists b. split; [lia|]. split; [|exact Hp].
        replace (i - index) with (S (i - S index)) in Hb by lia. exact Hb.
Qed.

(** The selected positions come out in ascending order. *)
Lemma selectFrom_sorted {A} (p : A -> nat -> bool) l :
  forall index, StronglySorted lt (selectFrom p l index).
Proof.
  induction l as [|a l IH]; intros index; simpl; [constructor|].
  destruct (p a index); simpl; [|apply IH].
  constructor; [apply IH|].
  apply List.Forall_forall. intros x Hx.
  apply In_selectFrom in Hx as (b & Hle & _). lia.
Qed.

Lemma forEachFrom_ext {A St} (f g : St -> A -> nat -> St) l :
  (forall s a i, f s a i = g s a i) ->
  forall index s, forEachFrom f l index s = forEachFrom g l index s.
Proof.
  intros Hfg. induction l as [|a l IH]; intros index s; simpl; [reflexivity|].
  rewrite Hfg. apply IH.
Qed.

Lemma autoSelect_columns headers dataRows :
  autoSelect Columns headers dataRows =
  selectFrom (fun _ colIdx => columnSelected dataRows colIdx) headers 0.
Proof.
  unfold autoSelect, forEach.
  rewrite <- (app_nil_l (selectFrom _ _ _)).
  rewrite <- forEachFrom_select by (intros x []).
  apply forEachFrom_ext. intros sel _ colIdx.
  unfold columnSelected, columnCells.
  rewrite (forEachFrom_fold
             (fun k row => countNumeric k (cellAt row colIdx))).
  rewrite (fold_left_countNumeric (fun row => cellAt row colIdx)).
  reflexivity.
Qed.

Lemma autoSelect_rows headers dataRows :
  autoSelect Rows headers dataRows =
  selectFrom (fun row _ => rowSelected row) dataRows 0.
Proof.
  unfold autoSelect, forEach.
  rewrite <- (app_nil_l (selectFrom _ _ _)).
  rewrite <- forEachFrom_select by (intros x []).
  apply forEachFrom_ext. intros sel row rowIdx.
  unfold rowSelected.
  rewrite (forEachFrom_fold countNumeric).
  rewrite (fold_left_countNumeric (fun c => c)), map_id.
  reflexivity.
Qed.

(** The default selection iterates in ascending order. *)
Lemma defaultSelection_sorted rows hasHeaderRow orientation :
  StronglySorted lt
    (defaultSelection Number_toString rows hasHeaderRow orientation).
Proof.
  unfold defaultSelection. destruct orientation.
  - rewrite autoSelect_columns. apply selectFrom_sorted.
  - rewrite autoSelect_rows. apply selectFrom_sorted.
Qed.

Lemma newSet_seq n : newSet (seq 0 n) = seq 0 n.
Proof.
  unfold newSet.
  assert (forall len lo s, (forall x, In x s -> x < lo) ->
            fold_left setAdd (seq lo len) s = s ++ seq lo len) as H.
  { induction len as [|len IH]; intros lo s Hs; simpl.
    - rewrite app_nil_r. reflexivity.
    - rewrite setAdd_fresh by (intros Hin; apply Hs in Hin; lia).
      rewrite IH.
      + rewrite <- app_assoc. reflexivity.
      + intros x Hx.
        apply in_app_or in Hx as [Hx|[<-|[]]]; [apply Hs in Hx|]; lia. }
  apply (H n 0 []). intros x [].
Qed.

End ExtractionFacts.

(* ================================================================== *)
(** * The threshold [numericCount > total * 0.3] in binary64

    The comparison is made on binary64 numbers.  [FloatAxioms] gives the
    product and the comparison through [SpecFloat]; this section follows the
    rounding of [total * 0.3] there and shows that, for counts an array can
    have, the comparison decides [3 * total < 10 * numericCount] exactly. *)

Section BinaryThreshold.
Local Open Scope Z_scope.

Lemma digits2_pos_size p : digits2_pos p = Pos.size p.
Proof. induction p; simpl; congruence. Qed.

Lemma digits2_pos_bounds p :
  2 ^ (Zpos (digits2_pos p) - 1) <= Zpos p < 2 ^ Zpos (digits2_pos p).
Proof.
  induction p as [p IH|p IH|]; cbn [digits2_pos].
  - rewrite Pos2Z.inj_succ.
    replace (Z.succ (Zpos (digits2_pos p)) - 1) with (Zpos (digits2_pos p) - 1 + 1) by lia.
    rewrite Z.pow_add_r by lia. rewrite Z.pow_succ_r by lia.
    change (2 ^ 1) with 2. lia.
  - rewrite Pos2Z.inj_succ.
    replace (Z.succ (Zpos (digits2_pos p)) - 1) with (Zpos (digits2_pos p) - 1 + 1) by lia.
    rewrite Z.pow_add_r by lia. rewrite Z.pow_succ_r by lia.
    change (2 ^ 1) with 2. lia.
  - simpl. lia.
Qed.

(** The number of binary digits is determined by the bounds. *)
Lemma digits2_pos_unique p d :
  2 ^ (d - 1) <= Zpos p < 2 ^ d -> Zpos (digits2_pos p) = d.
Proof.
  intros [Hlo Hhi].
  pose proof (digits2_pos_bounds p) as [Hlo' Hhi'].
  assert (0 < d) as Hd.
  { destruct (Z.ltb_spec 0 d); [assumption|]. exfalso.
    destruct (Z.eq_dec d 0) as [->|Hn].
    - simpl in Hhi. lia.
    - rewrite Z.pow_neg_r in Hhi by lia. lia. }
  destruct (Z.lt_trichotomy (Zpos (digits2_pos p)) d) as [Hlt|[Heq|Hgt]]; [|exact Heq|].
  - exfalso.
    assert (2 ^ Zpos (digits2_pos p) <= 2 ^ (d - 1)) by (apply Z.pow_le_mono_r; lia).
    lia.
  - exfalso.
    assert (2 ^ d <= 2 ^ (Zpos (digits2_pos p) - 1)) by (apply Z.pow_le_mono_r; lia).
    lia.
Qed.

Lemma shr_1_inv M k mrs :
  0 <= k -> shr_inv M k mrs -> shr_inv M (k + 1) (shr_1 mrs).
Proof.
  intros Hk. unfold shr_inv. destruct mrs as [m r s]. cbn [shr_m shr_r shr_s].
  rewrite Z.pow_add_r by lia. change (2 ^ 1) with 2.
  assert (0 < 2 ^ k) as HP by (apply Z.pow_pos_nonneg; lia).
  set (P := 2 ^ k) in *. clearbody P.
  intros (Hm & Hrem & Hr & Hs). subst r s.
  destruct m as [|[p|p|]|p]; cbn [shr_1 shr_m shr_r shr_s]; try lia;
    try rewrite (Pos2Z.inj_xI p) in *; try rewrite (Pos2Z.inj_xO p) in *;
    (repeat split; try lia);
    repeat match goal with
           | |- context [Z.leb ?a ?b] => destruct (Z.leb_spec a b)
           | |- context [Z.eqb ?a ?b] => destruct (Z.eqb_spec a b)
           end; simpl; lia.
Qed.

Lemma iter_shr_1_inv M p :
  forall k mrs, 0 <= k -> shr_inv M k mrs ->
  shr_inv M (k + Zpos p) (SpecFloat.iter_pos shr_1 p mrs).
Proof.
  induction p as [p IH|p IH|]; intros k mrs Hk Hinv; cbn [SpecFloat.iter_pos].
  - replace (k + Z.pos p~1) with (k + 1 + Z.pos p + Z.pos p) by lia.
    apply IH; [lia|]. apply IH; [lia|]. apply shr_1_inv; assumption.
  - replace (k + Z.pos p~0) with (k + Z.pos p + Z.pos p) by lia.
    apply IH; [lia|]. apply IH; assumption.
  - apply shr_1_inv; assumption.
Qed.

(** ** Canonical mantissas *)

Lemma fexp_normal e : -1021 <= e -> fexp prec emax e = e - 53.
Proof. intros He. unfold fexp, SpecFloat.emin, prec, emax. lia. Qed.

Lemma round_aux_canonical m e :
  Zpos (digits2_pos m) = 53 -> -1074 <= e <= 971 ->
  binary_round_aux prec emax false (Zpos m) e loc_Exact = S754_finite false m e.
Proof.
  intros Hd He.
  unfold binary_round_aux, shr_fexp. cbn [Zdigits2 shr_record_of_loc].
  rewrite Hd, fexp_normal by lia.
  replace (53 + e - 53 - e) with 0 by lia. cbn [shr shr_m loc_of_shr_record round_nearest_even].
  cbn [Zdigits2]. rewrite Hd, fexp_normal by lia.
  replace (53 + e - 53 - e) with 0 by lia. cbn [shr shr_m].
  destruct (Z.leb_spec e (emax - prec)) as [_|H]; [reflexivity|].
  unfold emax, prec in H. lia.
Qed.

Lemma digits2_pos_iter_xO k p :
  Zpos (digits2_pos (Pos.iter xO p k)) = Zpos (digits2_pos p) + Zpos k.
Proof.
  apply digits2_pos_unique.
  assert (Zpos (Pos.iter xO p k) = Zpos p * 2 ^ Zpos k) as ->.
  { rewrite <- Pos2Z.inj_pow.
    revert p. induction k using Pos.peano_ind; intros p.
    - simpl. rewrite Pos.pow_1_r. lia.
    - rewrite Pos.iter_succ, Pos.pow_succ_r. rewrite Pos2Z.inj_xO, IHk.
      rewrite !Pos2Z.inj_mul. lia. }
  pose proof (digits2_pos_bounds p) as [Hlo Hhi].
  replace (Zpos (digits2_pos p) + Zpos k - 1) with (Zpos (digits2_pos p) - 1 + Zpos k) by lia.
  rewrite !Z.pow_add_r by lia.
  assert (0 < 2 ^ Zpos k) by (apply Z.pow_pos_nonneg; lia).
  nia.
Qed.

Lemma Zpos_iter_xO k p : Zpos (Pos.iter xO p k) = Zpos p * 2 ^ Zpos k.
Proof.
  rewrite <- Pos2Z.inj_pow.
  revert p. induction k using Pos.peano_ind; intros p.
  - simpl. rewrite Pos.pow_1_r. lia.
  - rewrite Pos.iter_succ, Pos.pow_succ_r. rewrite Pos2Z.inj_xO, IHk.
    rewrite !Pos2Z.inj_mul. lia.
Qed.

(** A positive integer below [2^53] converts exactly. *)
Lemma binary_normalize_exact n :
  Zpos (digits2_pos n) <= 53 ->
  exists m e,
    binary_normalize prec emax (Zpos n) 0 false = S754_finite false m e /\
    Zpos (digits2_pos m) = 53 /\ -52 <= e <= 0 /\
    Zpos m = Zpos n * 2 ^ (- e).
Proof.
  intros Hd. cbn [binary_normalize]. unfold binary_round.
  rewrite Z.add_0_r, fexp_normal by lia.
  unfold shl_align.
  destruct (Zpos (digits2_pos n) - 53 - 0) as [|q|q] eqn:Hq; try lia.
  - exists n, 0. split; [apply round_aux_canonical; lia|].
    repeat split; try lia.
  - exists (Pos.iter xO n q), (Zpos (digits2_pos n) - 53).
    pose proof (digits2_pos_iter_xO q n) as Hdig.
    assert (Zpos q = 53 - Zpos (digits2_pos n)) as Hq' by lia.
    split; [apply round_aux_canonical; lia|].
    repeat split; try lia.
    rewrite Zpos_iter_xO. f_equal. f_equal. lia.
Qed.

(** ** Rounding a long mantissa *)

Lemma round_nearest_even_cases M k mrs :
  shr_inv M k mrs ->
  let q := shr_m mrs in
  let rem := M - q * 2 ^ k in
  let R := round_nearest_even q (loc_of_shr_record mrs) in
  (R = q /\ 2 * rem <= 2 ^ k) \/ (R = q + 1 /\ 2 ^ k <= 2 * rem).
Proof.
  unfold shr_inv. destruct mrs as [q r s]. cbn [shr_m shr_r shr_s].
  intros (Hq & Hrem & Hr & Hs). cbv zeta.
  set (P := 2 ^ k) in *. set (rem := M - q * P) in *.
  destruct (Z.leb_spec P (2 * rem)) as [Hle|Hlt];
    destruct (Z.eqb_spec rem 0) as [H0|H0];
    destruct (Z.eqb_spec (2 * rem) P) as [HP|HP];
    subst r s; cbn [negb orb loc_of_shr_record round_nearest_even]; try lia.
  destruct (Z.even q); [left|right]; lia.
Qed.

Lemma round_aux_product M e :
  let D := Zpos (digits2_pos M) in
  let s := D - 53 in
  53 < D -> -1021 <= D + e -> D + e <= 1000 ->
  exists mf ef R,
    binary_round_aux prec emax false (Zpos M) e loc_Exact
      = S754_finite false mf ef /\
    Zpos (digits2_pos mf) = 53 /\
    e + s <= ef /\
    Zpos mf * 2 ^ (ef - (e + s)) = R /\
    (forall Q, 2 * Q * 2 ^ s - 2 ^ s < 2 * Zpos M -> Q <= R) /\
    (forall Q, 2 * Zpos M < 2 * Q * 2 ^ s - 2 ^ s -> R <= Q - 1).
Proof.
  intros D s HD Hlo Hhi.
  unfold binary_round_aux, shr_fexp. cbn [Zdigits2 shr_record_of_loc].
  fold D. rewrite fexp_normal by lia.
  replace (D + e - 53 - e) with s by (unfold s; lia).
  destruct s as [|ps|ps] eqn:Hs; try lia.
  cbn [shr].
  assert (shr_inv (Zpos M) 0 {| shr_m := Zpos M; shr_r := false; shr_s := false |})
    as Hinv0.
  { unfold shr_inv. cbn [shr_m shr_r shr_s]. simpl (2 ^ 0).
    rewrite Z.mul_1_r, Z.sub_diag. simpl. lia. }
  pose proof (iter_shr_1_inv (Zpos M) ps 0 _ ltac:(lia) Hinv0) as Hinv.
  rewrite Z.add_0_l in Hinv.
  set (mrs := SpecFloat.iter_pos shr_1 ps _) in *.
  pose proof (round_nearest_even_cases _ _ _ Hinv) as Hcases. cbv zeta in Hcases.
  destruct Hinv as (Hq & Hrem & _ & _).
  set (q := shr_m mrs) in *.
  set (R := round_nearest_even q (loc_of_shr_record mrs)) in *.
  assert (0 < 2 ^ Zpos ps) as HP by (apply Z.pow_pos_nonneg; lia).
  pose proof (digits2_pos_bounds M) as [HMlo HMhi]. fold D in HMlo, HMhi.
  assert (2 ^ (D - 1) = 2 ^ 52 * 2 ^ Zpos ps) as E1
    by (rewrite <- Z.pow_add_r by lia; f_equal; lia).
  assert (2 ^ D = 2 ^ 53 * 2 ^ Zpos ps) as E2
    by (rewrite <- Z.pow_add_r by lia; f_equal; lia).
  rewrite E1 in HMlo. rewrite E2 in HMhi.
  set (P := 2 ^ Zpos ps) in *.
  assert (2 ^ 52 <= q < 2 ^ 53) as Hqr by (split; nia).
  assert (2 ^ 52 <= R <= 2 ^ 53) as HR by lia.
  assert (forall Q, 2 * Q * P - P < 2 * Zpos M -> Q <= R) as Ha.
  { intros Q HQ. destruct (Z.le_gt_cases Q R) as [|Hgt]; [assumption|exfalso].
    destruct Hcases as [[HRq Hr]|[HRq Hr]].
    - assert (P * (q + 1) <= P * Q) by (apply Z.mul_le_mono_nonneg_l; lia). lia.
    - assert (P * (q + 2) <= P * Q) by (apply Z.mul_le_mono_nonneg_l; lia). lia. }
  assert (forall Q, 2 * Zpos M < 2 * Q * P - P -> R <= Q - 1) as Hb.
  { intros Q HQ. destruct (Z.le_gt_cases R (Q - 1)) as [|Hgt]; [assumption|exfalso].
    destruct Hcases as [[HRq Hr]|[HRq Hr]].
    - assert (P * Q <= P * q) by (apply Z.mul_le_mono_nonneg_l; lia). lia.
    - assert (P * Q <= P * (q + 1)) by (apply Z.mul_le_mono_nonneg_l; lia). lia. }
  destruct R as [|pR|pR] eqn:ER; try lia.
  destruct (Z.eq_dec (Zpos pR) 9007199254740992) as [Hcarry|Hnc].
  - (* the rounding carried into a 54th digit *)
    assert (pR = 9007199254740992%positive) as -> by lia.
    exists 4503599627370496%positive, (e + Zpos ps + 1), 9007199254740992.
    split.
    + cbn [shr_fexp Zdigits2 shr_record_of_loc].
      change (Zpos (digits2_pos 9007199254740992)) with 54.
      rewrite fexp_normal by lia.
      replace (54 + (e + Zpos ps) - 53 - (e + Zpos ps)) with 1 by lia.
      cbn [shr SpecFloat.iter_pos shr_1 shr_m].
      destruct (Z.leb_spec (e + Zpos ps + 1) (emax - prec)) as [_|H];
        [reflexivity|unfold emax, prec in H; lia].
    + split; [reflexivity|]. split; [lia|].
      split; [replace (e + Zpos ps + 1 - (e + Zpos ps)) with 1 by lia; reflexivity|].
      split; assumption.
  - assert (Zpos (digits2_pos pR) = 53) as HdR.
    { apply digits2_pos_unique. change (53 - 1) with 52.
      change (2 ^ 53) with 9007199254740992 in *. lia. }
    exists pR, (e + Zpos ps), (Zpos pR).
    split.
    + cbn [shr_fexp Zdigits2 shr_record_of_loc]. rewrite HdR.
      rewrite fexp_normal by lia.
      replace (53 + (e + Zpos ps) - 53 - (e + Zpos ps)) with 0 by lia.
      cbn [shr shr_m].
      destruct (Z.leb_spec (e + Zpos ps) (emax - prec)) as [_|H];
        [reflexivity|unfold emax, prec in H; lia].
    + split; [exact HdR|]. split; [lia|].
      split; [rewrite Z.sub_diag; simpl; lia|].
      split; assumption.
Qed.

(** ** Comparing canonical numbers *)

Lemma SFltb_canonical m1 e1 m2 e2 K :
  Zpos (digits2_pos m1) = 53 -> Zpos (digits2_pos m2) = 53 ->
  K <= e1 -> K <= e2 ->
  SFltb (S754_finite false m1 e1) (S754_finite false m2 e2)
  = (Zpos m1 * 2 ^ (e1 - K) <? Zpos m2 * 2 ^ (e2 - K)).
Proof.
  intros H1 H2 K1 K2.
  pose proof (digits2_pos_bounds m1) as B1. rewrite H1 in B1.
  pose proof (digits2_pos_bounds m2) as B2. rewrite H2 in B2.
  change (53 - 1) with 52 in *.
  unfold SFltb, SFcompare.
  destruct (Z.compare_spec e1 e2) as [->|Hlt|Hgt].
  - change (Pos.compare_cont Eq m1 m2) with (Pos.compare m1 m2).
    assert (0 < 2 ^ (e2 - K)) by (apply Z.pow_pos_nonneg; lia).
    destruct (Pos.compare_spec m1 m2) as [E|L|G];
      destruct (Z.ltb_spec (Zpos m1 * 2 ^ (e2 - K)) (Zpos m2 * 2 ^ (e2 - K)));
      try reflexivity; exfalso; nia.
  - assert (2 ^ (e2 - K) = 2 ^ (e2 - e1) * 2 ^ (e1 - K)) as E
      by (rewrite <- Z.pow_add_r by lia; f_equal; lia).
    assert (0 < 2 ^ (e1 - K)) by (apply Z.pow_pos_nonneg; lia).
    assert (2 ^ 1 <= 2 ^ (e2 - e1)) by (apply Z.pow_le_mono_r; lia).
    change (2 ^ 1) with 2 in *.
    destruct (Z.ltb_spec (Zpos m1 * 2 ^ (e1 - K)) (Zpos m2 * 2 ^ (e2 - K)));
      [reflexivity|exfalso].
    rewrite E in *. nia.
  - assert (2 ^ (e1 - K) = 2 ^ (e1 - e2) * 2 ^ (e2 - K)) as E
      by (rewrite <- Z.pow_add_r by lia; f_equal; lia).
    assert (0 < 2 ^ (e2 - K)) by (apply Z.pow_pos_nonneg; lia).
    assert (2 ^ 1 <= 2 ^ (e1 - e2)) by (apply Z.pow_le_mono_r; lia).
    change (2 ^ 1) with 2 in *.
    destruct (Z.ltb_spec (Zpos m1 * 2 ^ (e1 - K)) (Zpos m2 * 2 ^ (e2 - K)));
      [exfalso|reflexivity].
    rewrite E in *. nia.
Qed.

(** ** The 30% threshold *)

Lemma Prim2SF_float_of_nat n :
  Z.of_nat n < 2 ^ 53 ->
  Prim2SF (float_of_nat n) = binary_normalize prec emax (Z.of_nat n) 0 false.
Proof.
  intros Hn. unfold float_of_nat. rewrite FloatAxioms.of_uint63_spec, Uint63.of_Z_spec.
  rewrite Z.mod_small; [reflexivity|].
  split; [lia|]. eapply Z.lt_trans; [exact Hn|]. reflexivity.
Qed.

Lemma digits_below n k :
  0 <= k -> Zpos n < 2 ^ k -> Zpos (digits2_pos n) <= k.
Proof.
  intros Hk Hn. pose proof (digits2_pos_bounds n) as [Hlo _].
  destruct (Z.le_gt_cases (Zpos (digits2_pos n)) k) as [|Hgt]; [assumption|exfalso].
  assert (2 ^ k <= 2 ^ (Zpos (digits2_pos n) - 1)) by (apply Z.pow_le_mono_r; lia).
  lia.
Qed.

Lemma Prim2SF_three_tenths :
  Prim2SF 0.3 = S754_finite false 5404319552844595 (-54).
Proof. reflexivity. Qed.

Lemma moreThan30Percent_exact (numericCount total : nat) :
  Z.of_nat total < 2 ^ 51 -> Z.of_nat numericCount < 2 ^ 53 ->
  moreThan30Percent numericCount total
  = (3 * Z.of_nat total <? 10 * Z.of_nat numericCount).
Proof.
  intros Hn Hc. unfold moreThan30Percent.
  rewrite FloatAxioms.ltb_spec, FloatAxioms.mul_spec, Prim2SF_three_tenths.
  rewrite !Prim2SF_float_of_nat by lia.
  destruct (Z.of_nat total) as [|n|n] eqn:En; try lia;
    destruct (Z.of_nat numericCount) as [|c|c] eqn:Ec; try lia.
  - reflexivity.
  - destruct (binary_normalize_exact c) as (mc & ec & -> & _);
      [apply digits_below; lia|]. reflexivity.
  - destruct (binary_normalize_exact n) as (mx & ex & -> & Hdx & Hex & Hmx);
      [apply digits_below; lia|].
    cbn [SF64mul SFmul xorb binary_normalize].
    set (M := (mx * 5404319552844595)%positive).
    destruct (round_aux_product M (ex + -54)) as (mf & ef & R & -> & _); [| | |reflexivity].
    all: pose proof (digits2_pos_bounds mx) as Bx; rewrite Hdx in Bx;
      change (53 - 1) with 52 in Bx;
      assert (2 ^ 104 <= Zpos M < 2 ^ 106) as BM by (unfold M; rewrite Pos2Z.inj_mul; lia);
      pose proof (digits2_pos_bounds M) as BD;
      assert (105 <= Zpos (digits2_pos M) <= 106) as HD.
    all: try (split;
        [destruct (Z.le_gt_cases 105 (Zpos (digits2_pos M))) as [|Hgt]; [assumption|exfalso];
         assert (2 ^ Zpos (digits2_pos M) <= 2 ^ 104) by (apply Z.pow_le_mono_r; lia); lia
        |destruct (Z.le_gt_cases (Zpos (digits2_pos M)) 106) as [|Hgt]; [assumption|exfalso];
         assert (2 ^ 106 <= 2 ^ (Zpos (digits2_pos M) - 1)) by (apply Z.pow_le_mono_r; lia); lia]).
    all: lia.
  - destruct (binary_normalize_exact n) as (mx & ex & -> & Hdx & Hex & Hmx);
      [apply digits_below; lia|].
    destruct (binary_normalize_exact c) as (mc & ec & -> & Hdc & Hec & Hmc);
      [apply digits_below; lia|].
    cbn [SF64mul SFmul xorb].
    set (M := (mx * 5404319552844595)%positive).
    pose proof (digits2_pos_bounds mx) as Bx. rewrite Hdx in Bx.
    change (53 - 1) with 52 in Bx.
    assert (2 ^ 104 <= Zpos M < 2 ^ 106) as BM
      by (unfold M; rewrite Pos2Z.inj_mul; lia).
    pose proof (digits2_pos_bounds M) as BD.
    assert (105 <= Zpos (digits2_pos M) <= 106) as HD.
    { split.
      - destruct (Z.le_gt_cases 105 (Zpos (digits2_pos M))) as [|Hgt]; [assumption|exfalso].
        assert (2 ^ Zpos (digits2_pos M) <= 2 ^ 104) by (apply Z.pow_le_mono_r; lia). lia.
      - destruct (Z.le_gt_cases (Zpos (digits2_pos M)) 106) as [|Hgt]; [assumption|exfalso].
        assert (2 ^ 106 <= 2 ^ (Zpos (digits2_pos M) - 1)) by (apply Z.pow_le_mono_r; lia). lia. }
    destruct (round_aux_product M (ex + -54))
      as (mf & ef & R & -> & Hdf & Hef & HR & Ha & Hb); [lia|lia|lia|].
    set (s := Zpos (digits2_pos M) - 53) in *.
    set (K := ex + -54 + s) in *.
    rewrite (SFltb_canonical mf ef mc ec (-200)) by lia.
    (* the exponent of the smaller operand: n < 2^51 *)
    assert (ex <= -2) as Hex2.
    { destruct (Z.le_gt_cases ex (-2)) as [|Hgt]; [assumption|exfalso].
      assert (2 ^ (- ex) <= 2 ^ 1) by (apply Z.pow_le_mono_r; lia).
      change (2 ^ 1) with 2 in *. change (2 ^ 51) with 2251799813685248 in Hn.
      change (2 ^ 52) with 4503599627370496 in Bx. nia. }
    set (u := 2 ^ (- ex)) in *.
    assert (4 <= u) as Hu by (change 4 with (2 ^ 2); apply Z.pow_le_mono_r; lia).
    set (P := 2 ^ s) in *.
    assert (2 ^ 52 <= P <= 2 ^ 53) as HP
      by (split; apply Z.pow_le_mono_r; unfold s; lia).
    set (Q := Zpos c * 2 ^ (- K)).
    assert (Q * P = Zpos c * (2 ^ 54 * u)) as HQP.
    { unfold Q, P, u. rewrite <- Z.mul_assoc. f_equal.
      rewrite <- !Z.pow_add_r by (unfold K; lia). f_equal. unfold K. lia. }
    assert (Zpos mf * 2 ^ (ef - -200) = R * 2 ^ (K + 200)) as ->.
    { rewrite <- HR, <- Z.mul_assoc. f_equal.
      rewrite <- Z.pow_add_r by lia. f_equal. lia. }
    assert (Zpos mc * 2 ^ (ec - -200) = Q * 2 ^ (K + 200)) as ->.
    { rewrite Hmc. unfold Q. rewrite <- !Z.mul_assoc. f_equal.
      rewrite <- !Z.pow_add_r by (unfold K; lia). f_equal. lia. }
    assert (0 < 2 ^ (K + 200)) as HT by (apply Z.pow_pos_nonneg; unfold K; lia).
    assert (10 * Zpos M = 3 * (Zpos n * (2 ^ 54 * u)) - 2 * Zpos mx) as HM.
    { unfold M. rewrite Pos2Z.inj_mul, Hmx. fold u.
      change (2 ^ 54) with 18014398509481984. lia. }
    set (W := 2 ^ 54 * u) in *.
    assert (4 * 2 ^ 54 <= W) as HW by (unfold W; nia).
    change (2 ^ 54) with 18014398509481984 in HW.
    change (2 ^ 52) with 4503599627370496 in *.
    change (2 ^ 53) with 9007199254740992 in *.
    destruct (Z.ltb_spec (3 * Zpos n) (10 * Zpos c)) as [Hlt|Hge].
    + assert (R <= Q - 1) as HRQ.
      { apply Hb. fold P.
        assert (W * (3 * Zpos n + 1) <= W * (10 * Zpos c))
          by (apply Z.mul_le_mono_nonneg_l; lia).
        lia. }
      destruct (Z.ltb_spec (R * 2 ^ (K + 200)) (Q * 2 ^ (K + 200)));
        [reflexivity|exfalso; nia].
    + assert (Q <= R) as HRQ.
      { apply Ha. fold P.
        assert (W * (10 * Zpos c) <= W * (3 * Zpos n))
          by (apply Z.mul_le_mono_nonneg_l; lia).
        lia. }
      destruct (Z.ltb_spec (R * 2 ^ (K + 200)) (Q * 2 ^ (K + 200)));
        [exfalso; nia|reflexivity].
Qed.

(** The same on natural numbers, for counts an array can have. *)
Lemma moreThan30Percent_nat (numericCount total : nat) :
  Z.of_nat total < 2 ^ 32 -> (numericCount <= total)%nat ->
  moreThan30Percent numericCount total
  = (3 * total <? 10 * numericCount)%nat.
Proof.
  intros Hn Hc.
  rewrite moreThan30Percent_exact.
  - destruct (Z.ltb_spec (3 * Z.of_nat total) (10 * Z.of_nat numericCount)),
      (Nat.ltb_spec (3 * total) (10 * numericCount)); try reflexivity; lia.
  - eapply Z.lt_trans; [exact Hn|reflexivity].
  - eapply Z.le_lt_trans; [apply Nat2Z.inj_le; exact Hc|].
    eapply Z.lt_trans; [exact Hn|reflexivity].
Qed.

End BinaryThreshold.

(* ================================================================== *)
(** * The default selection, counted exactly *)

Section SelectionFacts.
Variable Number_toString : float -> JSString.

Lemma countIf_le {A} (p : A -> bool) l : countIf p l <= length l.
Proof. unfold countIf. apply List.filter_length_le. Qed.

Lemma columnSelected_exact dataRows colIdx :
  columnSelected dataRows colIdx = true <->
  3 * length (take 20 dataRows)
  < 10 * countIf isNumericCell (columnCells (take 20 dataRows) colIdx).
Proof.
  unfold columnSelected. cbv zeta.
  set (sample := take 20 dataRows).
  assert (length sample <= 20) as Hlen by (unfold sample; rewrite length_take; lia).
  pose proof (countIf_le isNumericCell (columnCells sample colIdx)) as Hc.
  unfold columnCells in Hc at 2. rewrite length_map in Hc.
  rewrite moreThan30Percent_nat by (try exact Hc; lia).
  rewrite andb_true_iff, Nat.ltb_lt, Nat.ltb_lt. lia.
Qed.

Lemma rowSelected_exact (row : Row) :
  (Z.of_nat (length row) < 2 ^ 32)%Z ->
  rowSelected row = true <->
  1 < length row /\
  3 * (length row - 1) < 10 * countIf isNumericCell (drop 1 row).
Proof.
  intros Hlen. unfold rowSelected.
  pose proof (countIf_le isNumericCell (drop 1 row)) as Hc.
  rewrite length_drop in Hc.
  rewrite moreThan30Percent_nat by (try exact Hc; lia).
  rewrite andb_true_iff, Nat.ltb_lt, Nat.ltb_lt. reflexivity.
Qed.

Lemma defaultSelection_columns rows hasHeaderRow i :
  In i (defaultSelection Number_toString rows hasHeaderRow Columns) <->
  i < length (headersOf Number_toString rows hasHeaderRow) /\
  3 * length (take 20 (dataRowsOf rows hasHeaderRow))
  < 10 * countIf isNumericCell
           (columnCells (take 20 (dataRowsOf rows hasHeaderRow)) i).
Proof.
  unfold defaultSelection. rewrite autoSelect_columns, In_selectFrom.
  rewrite <- columnSelected_exact. split.
  - intros (h & _ & Hh & Hsel). rewrite Nat.sub_0_r in Hh.
    split; [exact (lookup_lt_Some _ _ _ Hh)|exact Hsel].
  - intros [Hi Hsel].
    destruct (lookup_lt_is_Some_2 _ _ Hi) as [h Hh].
    exists h. rewrite Nat.sub_0_r. split; [lia|]. split; [exact Hh|exact Hsel].
Qed.

Lemma defaultSelection_rows rows hasHeaderRow i :
  (forall row, In row (dataRowsOf rows hasHeaderRow) ->
     (Z.of_nat (length row) < 2 ^ 32)%Z) ->
  In i (defaultSelection Number_toString rows hasHeaderRow Rows) <->
  exists row, dataRowsOf rows hasHeaderRow !! i = Some row /\
    1 < length row /\
    3 * (length row - 1) < 10 * countIf isNumericCell (drop 1 row).
Proof.
  intros Hrows.
  unfold defaultSelection. rewrite autoSelect_rows, In_selectFrom. split.
  - intros (row & _ & Hrow & Hsel). rewrite Nat.sub_0_r in Hrow.
    exists row. split; [exact Hrow|].
    apply rowSelected_exact; [|exact Hsel].
    apply Hrows. apply list_elem_of_In. eapply list_elem_of_lookup_2. exact Hrow.
  - intros (row & Hrow & Hsel).
    exists row. rewrite Nat.sub_0_r. split; [lia|]. split; [exact Hrow|].
    apply rowSelected_exact; [|exact Hsel].
    apply Hrows. apply list_elem_of_In. eapply list_elem_of_lookup_2. exact Hrow.
Qed.

End SelectionFacts.

(* ================================================================== *)
(** * The correlation engine: the matrix *)

(** C1. For every list of series, [generateCorrelationMatrix] returns a
    matrix whose diagonal entries are the constant 1 (whatever the number
    operations compute, so never the result of a correlation), whose entries
    at [(i, j)] and [(j, i)] are equal, and whose entry at [(i, j)] for
    [i < j] is the correlation of series [i] and [j], with 0 in place of
    [null]; the mirrored entry is that same value. *)
Theorem matrix_diagonal_and_symmetry {T : Type} {ops : NumberOps T}
  (data : list (VariableData T)) :
  exists m, generateCorrelationMatrix data = Normal m /\
    (forall i, i < length data -> entry m i i = Some num_one) /\
    (forall i j, i < length data -> j < length data ->
       entry m i j = entry m j i) /\
    (forall i j di dj, i < j -> data !! i = Some di -> data !! j = Some dj ->
       entry m i j =
         Some (orZero (calculatePearsonCorrelation (values di) (values dj)))
       /\ entry m j i = entry m i j).
Proof.
  destruct (generateCorrelationMatrix_grid data) as (g & Hg & _ & Hval).
  exists (mkMatrix (map name data) g). split; [exact Hg|].
  unfold entry. cbn [grid]. repeat split.
  - intros i Hi. rewrite Hval by assumption. rewrite coefficient_diag. reflexivity.
  - intros i j Hi Hj. rewrite !Hval by assumption.
    rewrite coefficient_sym. reflexivity.
  - rewrite Hval by (eapply lookup_lt_Some; eassumption).
    erewrite coefficient_upper by eassumption. reflexivity.
  - pose proof (lookup_lt_Some _ _ _ H0). pose proof (lookup_lt_Some _ _ _ H1).
    rewrite !Hval by assumption. f_equal. apply coefficient_sym.
Qed.

(** C10. [generateCorrelationMatrix] completes normally on every list of
    series: on the empty list it returns the empty matrix and on a single
    series the 1 by 1 grid [[1]].  It has no minimum of two series: that
    gate is in the caller, [handleAnalyze], which calls [onAnalyze] only
    with two series or more. *)
Theorem generateCorrelationMatrix_total {T : Type} {ops : NumberOps T} :
  (forall data : list (VariableData T),
     exists m, generateCorrelationMatrix data = Normal m) /\
  generateCorrelationMatrix (T := T) [] = Normal (mkMatrix [] []) /\
  (forall d : VariableData T,
     generateCorrelationMatrix [d] = Normal (mkMatrix [name d] [[num_one]])) /\
  (forall Number_toString rows hasHeaderRow orientation sel variables,
     handleAnalyze Number_toString rows hasHeaderRow orientation sel
       = OnAnalyze variables ->
     2 <= length variables).
Proof.
  split; [|split; [|split]].
  - intros data.
    destruct (generateCorrelationMatrix_grid data) as (g & Hg & _).
    eexists. exact Hg.
  - reflexivity.
  - intros d. unfold generateCorrelationMatrix. cbn. reflexivity.
  - intros Number_toString rows hasHeaderRow orientation sel variables H.
    rewrite handleAnalyze_surviving in H.
    destruct (length sel <? 2); [discriminate|]. cbv zeta in H.
    destruct (Nat.ltb_spec
                (length (survivingSeries Number_toString rows hasHeaderRow
                           orientation sel)) 2) as [|Hge]; [discriminate|].
    injection H as <-. exact Hge.
Qed.

(* ================================================================== *)
(** * The correlation engine: one coefficient *)

(** C2. [calculatePearsonCorrelation] walks the positions below the longer
    length and keeps exactly the positions where both sides are present and
    finite: the skipped positions add nothing to the sums or to the count
    [k].  With [k < 2] it returns [null]; otherwise, when the denominator is
    not zero, it returns
    [(k Sab - Sa Sb) / sqrt ((k Saa - Sa^2) (k Sbb - Sb^2))].
    For [a = [1, 2, 3]] and [b = [1, 2]] the valid pairs are those of
    positions 0 and 1. *)
Theorem pearson_formula {T : Type} {ops : NumberOps T} (a b : list T) :
  let ps := validPairs a b in
  let k := num_of_nat (length ps) in
  let Sa := total (map fst ps) in
  let Sb := total (map snd ps) in
  let Sab := total (map (fun p => fst p * snd p)%num ps) in
  let Saa := total (map (fun p => fst p * fst p)%num ps) in
  let Sbb := total (map (fun p => snd p * snd p)%num ps) in
  let denominator :=
    num_sqrt ((k * Saa - Sa * Sa) * (k * Sbb - Sb * Sb))%num in
  (forall p, In p ps <->
     exists i, i < Nat.max (length a) (length b) /\
       a !! i = Some (fst p) /\ b !! i = Some (snd p) /\
       num_isFinite (fst p) = true /\ num_isFinite (snd p) = true) /\
  calculatePearsonCorrelation a b =
    (if length ps <? 2 then None
     else if (denominator === num_zero)%num then Some num_zero
     else Some ((k * Sab - Sa * Sb) / denominator)%num) /\
  validPairs [1; 2; 3]%float [1; 2]%float = [(1, 1); (2, 2)]%float.
Proof.
  cbv zeta. split; [|split].
  - intros [x y]. unfold validPairs.
    rewrite <- list_elem_of_In, list_elem_of_omap. split.
    + intros (i & Hi & Hp). apply list_elem_of_In, in_seq in Hi.
      exists i. split; [lia|]. unfold validPair in Hp.
      destruct (a !! i) as [x'|]; [|discriminate].
      destruct (b !! i) as [y'|]; [|discriminate].
      destruct (num_isFinite x') eqn:Fx, (num_isFinite y') eqn:Fy;
        try discriminate.
      injection Hp as <- <-. auto.
    + intros (i & Hi & Ha & Hb & Fx & Fy). cbn [fst snd] in *.
      exists i. split; [apply list_elem_of_In, in_seq; lia|].
      unfold validPair. rewrite Ha, Hb, Fx, Fy. reflexivity.
  - apply calculatePearsonCorrelation_pearson.
  - reflexivity.
Qed.

(** C3.  The code tests [denominator === 0] to give 0 to a series without
    variance, but in binary64 the variance term [k * Sxx - Sx * Sx] of a
    constant series need not round to zero.  It is then negative, and the
    square root NaN, or both terms are nonzero and the quotient is some
    other number; the branch is missed either way. *)
Theorem constant_series_defect :
  calculatePearsonCorrelation
    [0.3; 0.3; 0.3; 0.3; 0.3; 0.3]%float [0; 1; 2; 3; 4; 5]%float = Some nan /\
  calculatePearsonCorrelation
    [1.3; 1.3; 1.3]%float [0; 1; 2]%float = Some nan /\
  calculatePearsonCorrelation
    [0.3; 0.3; 0.3]%float [0.7; 0.7; 0.7]%float = Some 1.5%float /\
  calculatePearsonCorrelation
    (replicate 12 0.9%float) (replicate 12 9.9%float) = Some (-4)%float.
Proof.
  split; [|split; [|split]]; vm_compute; reflexivity.
Qed.

(** C4, as stated, fails: in binary64 the quotient can round above 1, and
    sums that overflow give NaN. *)
Lemma coefficient_outside_interval :
  generateCorrelationMatrix
    [mkVariableData (js "a") [0.1; 0.1; 0.2]%float;
     mkVariableData (js "b") [1; 1; 2]%float;
     mkVariableData (js "c") [1e200; 2e200]%float]
  = Normal (mkMatrix [js "a"; js "b"; js "c"]
              [[1; 0x1.0000000000002p+0; nan];
               [0x1.0000000000002p+0; 1; nan];
               [nan; nan; 1]]%float) /\
  (1 <? 0x1.0000000000002p+0)%float = true.
Proof. split; vm_compute; reflexivity. Qed.

(** C4, amended.  In exact arithmetic every entry of every matrix that
    [generateCorrelationMatrix] produces lies in [-1, 1]. *)
Theorem exact_entries_bounded (data : list (VariableData XR)) :
  exists m, generateCorrelationMatrix data = Normal m /\
    forall i j, i < length data -> j < length data ->
      exists r, entry m i j = Some (XReal r) /\ (-1 <= r <= 1)%R.
Proof.
  destruct (generateCorrelationMatrix_grid data) as (g & Hg & _ & Hval).
  exists (mkMatrix (map name data) g). split; [exact Hg|].
  intros i j Hi Hj. unfold entry. cbn [grid]. rewrite Hval by assumption.
  destruct (coefficient_exact_bound data i j) as (r & -> & Hr).
  exists r. split; [reflexivity|exact Hr].
Qed.

(* ================================================================== *)
(** * Structure inference *)

Section StructureInference.
Variable Number_toString : float -> JSString.

(** C5. Header inference reads row 0 alone and answers [S > 0 && S >= N],
    where [S] counts the cells of row 0 that are present, textual and fail
    numeric coercion, and [N] those that are numeric, or textual and
    coercible; missing cells count in neither.  The three rows of the
    specification give true, false and false (there [S = 1 < N = 2]). *)
Theorem header_inference :
  (forall rows, detectHeaderRow Number_toString rows = headerPresent rows) /\
  (forall row0 rest rest',
     detectHeaderRow Number_toString (row0 :: rest)
     = detectHeaderRow Number_toString (row0 :: rest')) /\
  detectHeaderRow Number_toString
    [[Str (js "Revenue"); Str (js "Users"); Str (js "Region")]] = true /\
  detectHeaderRow Number_toString [[Num 10; Num 20; Num 30]] = false /\
  detectHeaderRow Number_toString [[Str (js "A"); Num 5; Num 10]] = false /\
  countIf stringLike [Str (js "A"); Num 5; Num 10] = 1 /\
  countIf numberLike [Str (js "A"); Num 5; Num 10] = 2.
Proof.
  split; [exact (detectHeaderRow_headerPresent Number_toString)|].
  split; [intros; rewrite !detectHeaderRow_headerPresent; reflexivity|].
  rewrite !detectHeaderRow_headerPresent.
  repeat split; vm_compute; reflexivity.
Qed.

(** C6, amended.  The default selection holds exactly the candidate indices
    whose count of numeric sampled cells exceeds 30% of the sampled count,
    where a cell is numeric when it is a number or a string that
    [parseFloat] does not turn into NaN: by column, the candidates are the
    indices of [headers] and the sample is the first 20 data rows (no data
    row, no selection); by row, the sample is the row without its first
    cell, and a row of length at most 1 is left out.  Rows are shorter than
    [2^32], as every array is. *)
Theorem default_selection_membership rows hasHeaderRow orientation i :
  (forall row, In row (dataRowsOf rows hasHeaderRow) ->
     (Z.of_nat (length row) < 2 ^ 32)%Z) ->
  In i (defaultSelection Number_toString rows hasHeaderRow orientation) <->
  match orientation with
  | Columns =>
      i < length (headersOf Number_toString rows hasHeaderRow) /\
      let sample := take 20 (dataRowsOf rows hasHeaderRow) in
      3 * length sample < 10 * countIf isNumericCell (columnCells sample i)
  | Rows =>
      exists row, dataRowsOf rows hasHeaderRow !! i = Some row /\
        1 < length row /\
        3 * (length row - 1) < 10 * countIf isNumericCell (drop 1 row)
  end.
Proof.
  intros Hrows. destruct orientation.
  - apply defaultSelection_columns.
  - apply defaultSelection_rows. exact Hrows.
Qed.

End StructureInference.

(** C6, as stated, fails: a cell that coerces to Infinity is counted, though
    Infinity is not a finite number.  The one column of this table has no
    cell that coerces to a finite number, and it is selected. *)
Lemma infinite_cell_selected :
  defaultSelection blankNumberText [[Str (js "Infinity")]] false Columns = [0]
  /\ countIf coercesToFinite
       (columnCells (take 20 [[Str (js "Infinity")]]) 0) = 0.
Proof. split; vm_compute; reflexivity. Qed.

Lemma default_selection_membership_witness :
  (forall row, In row (dataRowsOf salesTable true) ->
     (Z.of_nat (length row) < 2 ^ 32)%Z) /\
  (In 1 (defaultSelection blankNumberText salesTable true Columns) <->
   1 < length (headersOf blankNumberText salesTable true) /\
   let sample := take 20 (dataRowsOf salesTable true) in
   3 * length sample < 10 * countIf isNumericCell (columnCells sample 1)).
Proof.
  assert (forall row, In row (dataRowsOf salesTable true) ->
            (Z.of_nat (length row) < 2 ^ 32)%Z) as Hrows.
  { intros row Hin. simpl in Hin.
    destruct Hin as [<-|[<-|[<-|[]]]]; vm_compute; reflexivity. }
  split; [exact Hrows|].
  exact (default_selection_membership blankNumberText salesTable true Columns 1
           Hrows).
Defined.

(* ================================================================== *)
(** * Series extraction *)

Section SeriesExtraction.
Variable Number_toString : float -> JSString.

Lemma candidateSeries_seriesAt rows hasHeaderRow orientation sel :
  candidateSeries Number_toString rows hasHeaderRow orientation sel
  = omap (seriesAt Number_toString rows hasHeaderRow orientation) sel.
Proof.
  unfold candidateSeries, seriesAt. destruct orientation; [|reflexivity].
  induction sel as [|i sel IH]; [reflexivity|].
  cbn [map omap list_omap]. f_equal; exact IH.
Qed.

Lemma seq_sorted len : forall lo, StronglySorted lt (seq lo len).
Proof.
  induction len as [|len IH]; intros lo; simpl; constructor; [apply IH|].
  apply List.Forall_forall. intros x Hx. apply in_seq in Hx. lia.
Qed.

(** A filtered [omap] keeps the order of the list it reads. *)
Lemma filter_omap_order {A B} (f : A -> option B) (p : B -> bool) l :
  exists kept, sublist kept l /\
    Forall2 (fun a b => f a = Some b) kept (List.filter p (omap f l)).
Proof.
  induction l as [|a l (kept & Hsub & Hall)].
  - exists []. split; constructor.
  - cbn [omap list_omap]. destruct (f a) as [b|] eqn:Hfa.
    + cbn [List.filter]. destruct (p b).
      * exists (a :: kept). split; [apply sublist_skip; exact Hsub|].
        constructor; assumption.
      * exists kept. split; [apply sublist_cons; exact Hsub|exact Hall].
    + exists kept. split; [apply sublist_cons; exact Hsub|exact Hall].
Qed.

Lemma handleAnalyze_OnAnalyze rows hasHeaderRow orientation sel variables :
  handleAnalyze Number_toString rows hasHeaderRow orientation sel
    = OnAnalyze variables ->
  2 <= length sel /\
  variables = survivingSeries Number_toString rows hasHeaderRow orientation sel
  /\ 2 <= length variables.
Proof.
  rewrite handleAnalyze_surviving.
  destruct (Nat.ltb_spec (length sel) 2); [discriminate|]. cbv zeta.
  destruct (Nat.ltb_spec
              (length (survivingSeries Number_toString rows hasHeaderRow
                         orientation sel)) 2); [discriminate|].
  intros [= <-]. auto.
Qed.

Lemma survives_countValid v : survives v = true <-> 2 <= countValid (values v).
Proof. unfold survives. apply Nat.leb_le. Qed.

(** C7, amended.  Extraction drops every series with fewer than two values
    that are not NaN, and keeps the others in order; a dropped series is not
    passed on, so the [variables] of the matrix are the names of the kept
    series.  With fewer than two kept series (or fewer than two selected
    indices) [handleAnalyze] alerts and no matrix is computed. *)
Theorem post_filter rows hasHeaderRow orientation sel :
  let candidates :=
    candidateSeries Number_toString rows hasHeaderRow orientation sel in
  let kept := List.filter (fun v => 2 <=? countValid (values v)) candidates in
  handleAnalyze Number_toString rows hasHeaderRow orientation sel
    = (if length sel <? 2 then AlertSelection
       else if length kept <? 2 then AlertData
       else OnAnalyze kept) /\
  (forall v, In v kept <-> In v candidates /\ 2 <= countValid (values v)) /\
  match analyze Number_toString rows hasHeaderRow orientation sel with
  | Some result =>
      2 <= length kept /\
      exists m, result = Normal m /\ variables m = map name kept
  | None => length sel < 2 \/ length kept < 2
  end.
Proof.
  cbv zeta. split; [apply handleAnalyze_surviving|]. split.
  - intros v. rewrite filter_In, Nat.leb_le. reflexivity.
  - unfold analyze. rewrite handleAnalyze_surviving. cbv zeta.
    unfold survivingSeries, survives.
    destruct (Nat.ltb_spec (length sel) 2); [left; assumption|].
    match goal with
    | |- context [length ?k <? 2] =>
        destruct (Nat.ltb_spec (length k) 2) as [Hlt|Hge];
          [right; exact Hlt|split; [exact Hge|]];
          destruct (generateCorrelationMatrix_grid k) as (g & Hg & _)
    end.
    eexists. split; [exact Hg|reflexivity].
Qed.

(** C8, amended.  The extracted series follow the order in which the
    selection iterates, which is the order of insertion: the series are
    those of a subsequence of the selection, in its order.  The default
    selection and select-all insert the indices in ascending order. *)
Theorem series_follow_iteration_order rows hasHeaderRow orientation :
  (forall sel variables,
     handleAnalyze Number_toString rows hasHeaderRow orientation sel
       = OnAnalyze variables ->
     exists kept, sublist kept sel /\
       Forall2 (fun i v =>
                  seriesAt Number_toString rows hasHeaderRow orientation i
                  = Some v)
               kept variables) /\
  StronglySorted lt
    (defaultSelection Number_toString rows hasHeaderRow orientation) /\
  StronglySorted lt
    (selectAll orientation (headersOf Number_toString rows hasHeaderRow)
               (dataRowsOf rows hasHeaderRow)).
Proof.
  split; [|split].
  - intros sel variables H.
    apply handleAnalyze_OnAnalyze in H as (_ & -> & _).
    unfold survivingSeries. rewrite candidateSeries_seriesAt.
    apply filter_omap_order.
  - apply defaultSelection_sorted.
  - unfold selectAll. destruct orientation; rewrite newSet_seq;
      apply seq_sorted.
Qed.

Lemma coerceCell_placeholder cell :
  isNumericCell cell = false -> coerceCell cell = nan.
Proof.
  destruct cell as [| |s|x|b]; simpl; try reflexivity; [|discriminate].
  destruct (isNaN (parseFloat s)); [reflexivity|discriminate].
Qed.

(** C9. Under [columns], every extracted series has one value per data row,
    so all of them have the same length, and the value at position [r] is
    the coercion of the cell of row [r] in the series' column: NaN when the
    cell is neither a number nor a string that parses.  The column
    [10, "abc", 30] gives a series of length 3 with NaN at position 1. *)
Theorem column_series_aligned rows hasHeaderRow sel variables :
  handleAnalyze Number_toString rows hasHeaderRow Columns sel
    = OnAnalyze variables ->
  Forall (fun v =>
    length (values v) = length (dataRowsOf rows hasHeaderRow) /\
    exists colIdx, In colIdx sel /\
      forall r row, dataRowsOf rows hasHeaderRow !! r = Some row ->
        values v !! r = Some (coerceCell (cellAt row colIdx)) /\
        (isNumericCell (cellAt row colIdx) = false ->
         values v !! r = Some nan))
    variables.
Proof.
  intros H. apply handleAnalyze_OnAnalyze in H as (_ & -> & _).
  unfold survivingSeries, candidateSeries.
  apply List.Forall_forall. intros v Hv.
  apply filter_In in Hv as [Hv _]. apply in_map_iff in Hv as (colIdx & <- & Hc).
  unfold columnSeries, columnCells. cbn [values].
  split; [rewrite !length_map; reflexivity|].
  exists colIdx. split; [exact Hc|].
  intros r row Hrow. rewrite map_map, list_lookup_fmap, Hrow. cbn.
  split; [reflexivity|]. intros Hnum. f_equal.
  apply coerceCell_placeholder. exact Hnum.
Qed.

End SeriesExtraction.

(** C7, as stated, fails: the post-filter counts the values that are not
    NaN, so a series without any finite value can be kept. *)
Lemma infinite_series_kept :
  handleAnalyze blankNumberText
    [[Str (js "Infinity"); Num 1]; [Str (js "Infinity"); Num 2]]
    false Columns [0; 1]
  = OnAnalyze [mkVariableData (columnLabel 0) [infinity; infinity];
               mkVariableData (columnLabel 1) [1; 2]%float]
  /\ countFinite [infinity; infinity] = 0.
Proof. split; vm_compute; reflexivity. Qed.

(** C8, as stated, fails: a column that is deselected and selected again
    moves to the end of the selection, and its series to the end of the
    extracted series. *)
Lemma reselected_column_comes_last :
  defaultSelection blankNumberText [[Num 1; Num 10]; [Num 2; Num 20]]
    false Columns = [0; 1] /\
  toggleItem (toggleItem [0; 1] 0) 0 = [1; 0] /\
  handleAnalyze blankNumberText [[Num 1; Num 10]; [Num 2; Num 20]]
    false Columns [1; 0]
  = OnAnalyze [mkVariableData (columnLabel 1) [10; 20]%float;
               mkVariableData (columnLabel 0) [1; 2]%float].
Proof. repeat split; vm_compute; reflexivity. Qed.

Lemma series_follow_iteration_order_witness :
  exists kept, sublist kept [1; 0] /\
    Forall2 (fun i v =>
               seriesAt blankNumberText [[Num 1; Num 10]; [Num 2; Num 20]]
                 false Columns i = Some v)
      kept
      [mkVariableData (columnLabel 1) [10; 20]%float;
       mkVariableData (columnLabel 0) [1; 2]%float].
Proof.
  destruct (series_follow_iteration_order blankNumberText
              [[Num 1; Num 10]; [Num 2; Num 20]] false Columns) as [H _].
  apply (H [1; 0]). vm_compute. reflexivity.
Defined.

Lemma column_series_aligned_witness :
  handleAnalyze blankNumberText placeholderTable false Columns [0; 1]
  = OnAnalyze [mkVariableData (columnLabel 0) [10; nan; 30]%float;
               mkVariableData (columnLabel 1) [1; 2; 3]%float] /\
  Forall (fun v =>
    length (values v) = length (dataRowsOf placeholderTable false) /\
    exists colIdx, In colIdx [0; 1] /\
      forall r row, dataRowsOf placeholderTable false !! r = Some row ->
        values v !! r = Some (coerceCell (cellAt row colIdx)) /\
        (isNumericCell (cellAt row colIdx) = false ->
         values v !! r = Some nan))
    [mkVariableData (columnLabel 0) [10; nan; 30]%float;
     mkVariableData (columnLabel 1) [1; 2; 3]%float].
Proof.
  assert (handleAnalyze blankNumberText placeholderTable false Columns [0; 1]
          = OnAnalyze [mkVariableData (columnLabel 0) [10; nan; 30]%float;
                       mkVariableData (columnLabel 1) [1; 2; 3]%float])
    as H by (vm_compute; reflexivity).
  split; [exact H|].
  exact (column_series_aligned blankNumberText placeholderTable false [0; 1]
           _ H).
Defined.

(* ================================================================== *)
(** * Further properties of the correlation engine *)

Section PearsonSymmetry.
Context {T : Type} {ops : NumberOps T}.
Hypothesis num_mul_comm : forall a b : T, (a * b)%num = (b * a)%num.

Lemma validPairs_swap (x y : list T) :
  validPairs y x = map (fun p => (snd p, fst p)) (validPairs x y).
Proof.
  unfold validPairs. rewrite (Nat.max_comm (length y)).
  induction (seq 0 (Nat.max (length x) (length y))) as [|i l IH];
    [reflexivity|].
  cbn [omap list_omap]. fold (omap (validPair y x) l).
  fold (omap (validPair x y) l). rewrite IH. unfold validPair.
  destruct (x !! i) as [xi|], (y !! i) as [yi|]; try reflexivity.
  rewrite andb_comm. destruct (num_isFinite xi && num_isFinite yi); reflexivity.
Qed.

Lemma pearson_comm (x y : list T) : pearson x y = pearson y x.
Proof.
  unfold pearson. cbv zeta. rewrite (validPairs_swap x y).
  set (ps := validPairs x y). rewrite length_map.
  assert (sumA (map (fun p => (snd p, fst p)) ps) = sumB ps) as EA
    by (unfold sumA, sumB; rewrite map_map; reflexivity).
  assert (sumB (map (fun p => (snd p, fst p)) ps) = sumA ps) as EB
    by (unfold sumA, sumB; rewrite map_map; reflexivity).
  assert (sumAA (map (fun p => (snd p, fst p)) ps) = sumBB ps) as EAA
    by (unfold sumAA, sumBB; rewrite map_map; reflexivity).
  assert (sumBB (map (fun p => (snd p, fst p)) ps) = sumAA ps) as EBB
    by (unfold sumAA, sumBB; rewrite map_map; reflexivity).
  assert (sumAB (map (fun p => (snd p, fst p)) ps) = sumAB ps) as EAB.
  { unfold sumAB. rewrite map_map. f_equal. apply map_ext.
    intros p. cbn [fst snd]. apply num_mul_comm. }
  assert (pairCount (map (fun p => (snd p, fst p)) ps) = pairCount ps) as EK
    by (unfold pairCount; rewrite length_map; reflexivity).
  unfold denominatorOf, numeratorOf. rewrite EA, EB, EAA, EBB, EAB, EK.
  rewrite (num_mul_comm (sumB ps) (sumA ps)).
  rewrite (num_mul_comm (pairCount ps * sumBB ps - sumB ps * sumB ps)%num).
  reflexivity.
Qed.

End PearsonSymmetry.

(** Multiplication of binary64 numbers is commutative, bit for bit. *)
Lemma float_mul_comm (x y : float) : (x * y)%float = (y * x)%float.
Proof.
  apply Prim2SF_inj. rewrite !FloatAxioms.mul_spec.
  destruct (Prim2SF x) as [sx|sx| |sx mx ex], (Prim2SF y) as [sy|sy| |sy my ey];
    cbn [SF64mul SFmul]; try reflexivity; try (rewrite xorb_comm; reflexivity).
  rewrite xorb_comm, Pos.mul_comm, Z.add_comm. reflexivity.
Qed.

(** X1. In binary64 the coefficient of [x] and [y] is the coefficient of [y]
    and [x], bit for bit, NaN and [null] included. *)
Theorem calculatePearsonCorrelation_symmetric (x y : list float) :
  calculatePearsonCorrelation x y = calculatePearsonCorrelation y x.
Proof.
  rewrite !calculatePearsonCorrelation_pearson.
  apply pearson_comm. exact float_mul_comm.
Qed.

Section EngineFacts.
Context {T : Type} {ops : NumberOps T}.

Lemma omap_all_None {A B} (f : A -> option B) l :
  (forall a, In a l -> f a = None) -> omap f l = [].
Proof.
  induction l as [|a l IH]; intros H; [reflexivity|].
  cbn [omap list_omap]. rewrite (H a) by (left; reflexivity).
  apply IH. intros b Hb. apply H. right. exact Hb.
Qed.

Lemma omap_ext_in {A B} (f g : A -> option B) l :
  (forall a, In a l -> f a = g a) -> omap f l = omap g l.
Proof.
  induction l as [|a l IH]; intros H; [reflexivity|].
  cbn [omap list_omap]. rewrite (H a) by (left; reflexivity).
  fold (omap f l). fold (omap g l). rewrite IH; [reflexivity|].
  intros b Hb. apply H. right. exact Hb.
Qed.

Lemma validPairs_take (x y : list T) :
  let n := Nat.min (length x) (length y) in
  validPairs x y = validPairs (take n x) (take n y).
Proof.
  cbv zeta. set (n := Nat.min (length x) (length y)).
  unfold validPairs. rewrite !length_take.
  replace (Nat.max (n `min` length x) (n `min` length y)) with n
    by (unfold n; lia).
  replace (Nat.max (length x) (length y))
    with (n + (Nat.max (length x) (length y) - n)) by (unfold n; lia).
  rewrite seq_app, omap_app.
  rewrite (omap_all_None (validPair x y) (seq (0 + n) _)).
  - rewrite app_nil_r. apply omap_ext_in. intros i Hi. apply in_seq in Hi.
    unfold validPair. rewrite !lookup_take_lt by lia. reflexivity.
  - intros i Hi. apply in_seq in Hi. unfold validPair.
    destruct (Nat.le_ge_cases (length x) (length y)).
    + rewrite (lookup_ge_None_2 x i) by (unfold n in Hi; lia). reflexivity.
    + rewrite (lookup_ge_None_2 y i) by (unfold n in Hi; lia).
      destruct (x !! i); reflexivity.
Qed.

(** X2. The positions past the end of the shorter series play no part: the
    coefficient is that of the two series cut to the shorter length. *)
Theorem calculatePearsonCorrelation_shorter_length (x y : list T) :
  let n := Nat.min (length x) (length y) in
  calculatePearsonCorrelation x y
  = calculatePearsonCorrelation (take n x) (take n y).
Proof.
  cbv zeta. rewrite !calculatePearsonCorrelation_pearson.
  unfold pearson. cbv zeta.
  pose proof (validPairs_take x y) as H. cbv zeta in H. rewrite <- H.
  reflexivity.
Qed.

(** X3. The matrix lists the names in input order, and its grid is square with
    one row and one column per series. *)
Theorem generateCorrelationMatrix_shape (data : list (VariableData T)) :
  exists m, generateCorrelationMatrix data = Normal m /\
    variables m = map name data /\
    length (grid m) = length data /\
    Forall (fun row => length row = length data) (grid m).
Proof.
  destruct (generateCorrelationMatrix_grid data) as (g & Hg & [Hlen Hrows] & _).
  eexists. split; [exact Hg|]. cbn [variables grid].
  split; [reflexivity|]. split; [exact Hlen|].
  apply List.Forall_forall. intros row Hin.
  apply list_elem_of_In, list_elem_of_lookup in Hin as [a Ha]. eauto.
Qed.

End EngineFacts.

Section ExactCoefficient.

(** The coefficient over exact numbers, written over the reals. *)
Lemma pearson_exact_value (a b : list XR) :
  exists rs, validPairs a b = map liftPair rs /\
    pearson a b =
      if length rs <? 2 then None
      else if Req_dec_T (sqrt (varA rs * varB rs)) 0 then Some (XReal 0)
      else Some (XReal (covAB rs / sqrt (varA rs * varB rs))).
Proof.
  unfold pearson, validPairs.
  destruct (omap_validPair_exact a b (seq 0 (Nat.max (length a) (length b))))
    as [rs Hrs].
  exists rs. split; [exact Hrs|]. rewrite Hrs, length_map.
  destruct (length rs <? 2); [reflexivity|].
  assert (denominatorOf (map liftPair rs) = XReal (sqrt (varA rs * varB rs)))
    as Hden.
  { unfold denominatorOf, pairCount, sumAA, sumBB, sumA, sumB.
    rewrite (total_exact (fun r => fst r * fst r)%R
               (fun p => fst p * fst p)%num) by reflexivity.
    rewrite (total_exact (fun r => snd r * snd r)%R
               (fun p => snd p * snd p)%num) by reflexivity.
    rewrite !(total_exact fst fst) by reflexivity.
    rewrite !(total_exact snd snd) by reflexivity.
    rewrite length_map. simpl.
    fold (varA rs). fold (varB rs).
    destruct (Rlt_dec (varA rs * varB rs) 0) as [Hneg|_]; [|reflexivity].
    pose proof (varA_nonneg rs). pose proof (varB_nonneg rs). nra. }
  assert (numeratorOf (map liftPair rs) = XReal (covAB rs)) as Hnum.
  { unfold numeratorOf, pairCount, sumAB, sumA, sumB.
    rewrite (total_exact (fun r => fst r * snd r)%R
               (fun p => fst p * snd p)%num) by reflexivity.
    rewrite !(total_exact fst fst) by reflexivity.
    rewrite !(total_exact snd snd) by reflexivity.
    rewrite length_map. reflexivity. }
  rewrite Hden, Hnum. simpl.
  destruct (Req_dec_T (sqrt (varA rs * varB rs)) 0); reflexivity.
Qed.

Lemma Rtotal_constant (f : R * R -> R) (rs : list (R * R)) c :
  (forall r, In r rs -> f r = c) ->
  Rtotal (map f rs) = (INR (length rs) * c)%R.
Proof.
  induction rs as [|r rs IH]; intros H.
  - simpl. lra.
  - cbn [map Rtotal fold_right length]. rewrite S_INR.
    fold (Rtotal (map f rs)). rewrite IH by (intros; apply H; right; assumption).
    rewrite (H r) by (left; reflexivity). lra.
Qed.

(** X4. In exact arithmetic, a series whose finite values are all equal has
    coefficient 0 with every series that leaves it two valid pairs. *)
Theorem exact_constant_series (a b : list XR) (c : R) :
  (forall x, In x a -> x = XReal c \/ x = XNaN) ->
  2 <= length (validPairs a b) ->
  calculatePearsonCorrelation a b = Some (XReal 0).
Proof.
  intros Hconst Hk. rewrite calculatePearsonCorrelation_pearson.
  destruct (pearson_exact_value a b) as (rs & Hrs & ->).
  rewrite Hrs, length_map in Hk.
  destruct (Nat.ltb_spec (length rs) 2); [lia|].
  assert (forall r, In r rs -> fst r = c) as Hfst.
  { intros r Hr.
    assert (In (liftPair r) (validPairs a b)) as Hin
      by (rewrite Hrs; apply in_map; exact Hr).
    unfold validPairs in Hin.
    apply list_elem_of_In, list_elem_of_omap in Hin as (i & _ & Hp).
    unfold validPair in Hp.
    destruct (a !! i) as [x|] eqn:Hx; [|discriminate].
    destruct (b !! i) as [y|]; [|discriminate].
    destruct (num_isFinite x && num_isFinite y); [|discriminate].
    injection Hp as Hx' _.
    destruct (Hconst x) as [E|E].
    - apply list_elem_of_In. eapply list_elem_of_lookup_2. exact Hx.
    - rewrite E in Hx'. injection Hx' as <-. reflexivity.
    - rewrite E in Hx'. discriminate. }
  assert (varA rs = 0%R) as HA.
  { unfold varA.
    rewrite (Rtotal_constant (fun p => fst p * fst p)%R rs (c * c)%R)
      by (intros r Hr; rewrite (Hfst r Hr); reflexivity).
    rewrite (Rtotal_constant fst rs c) by exact Hfst. ring. }
  rewrite HA, Rmult_0_l, sqrt_0.
  destruct (Req_dec_T 0 0) as [_|Hne]; [reflexivity|contradiction].
Qed.

Lemma exact_constant_series_witness :
  calculatePearsonCorrelation [XReal 5; XNaN; XReal 5; XReal 5]
                              [XReal 1; XReal 2; XReal 3; XReal 7]
  = Some (XReal 0).
Proof.
  apply (exact_constant_series _ _ 5%R).
  - intros x Hx. simpl in Hx.
    destruct Hx as [<-|[<-|[<-|[<-|[]]]]]; auto.
  - vm_compute. lia.
Defined.

(** One squared distance to [c] is at most the sum of all of them. *)
Lemma squares_around_member l c v :
  In v l ->
  ((v - c) * (v - c) <=
     Rtotal (map (fun x => x * x) l) - 2 * c * Rtotal l
     + INR (length l) * (c * c))%R.
Proof.
  induction l as [|x l IH]; intros Hv; [destruct Hv|].
  cbn [map Rtotal fold_right length]. rewrite S_INR.
  fold (Rtotal (map (fun x => x * x)%R l)). fold (Rtotal l).
  destruct Hv as [->|Hv].
  - pose proof (squares_around l c). lra.
  - specialize (IH Hv).
    pose proof (Rle_0_sqr (x - c)) as Hsq. unfold Rsqr in Hsq. lra.
Qed.

(** [k * S(c^2) - (S c)^2] is positive as soon as two values differ. *)
Lemma variance_pos l v w :
  In v l -> In w l -> v <> w ->
  (0 < INR (length l) * Rtotal (map (fun x => x * x) l)
       - Rtotal l * Rtotal l)%R.
Proof.
  intros Hv Hw Hne.
  assert (0 < INR (length l))%R as Hn.
  { destruct l; [destruct Hv|]. apply lt_0_INR. simpl. lia. }
  remember (Rtotal l / INR (length l))%R as mu eqn:Hmu.
  assert (Rtotal l = INR (length l) * mu)%R as Hs by (subst mu; field; lra).
  pose proof (squares_around_member l mu v Hv) as H1.
  pose proof (squares_around_member l mu w Hw) as H2.
  rewrite Hs in H1, H2 |- *.
  set (n := INR (length l)) in *.
  set (q := Rtotal (map (fun x => x * x)%R l)) in *.
  assert (0 < q - 2 * mu * (n * mu) + n * (mu * mu))%R as Hd.
  { destruct (Req_dec v mu) as [->|Hvm].
    - assert (0 < (w - mu) * (w - mu))%R by (apply Rsqr_pos_lt; lra). lra.
    - assert (0 < (v - mu) * (v - mu))%R by (apply Rsqr_pos_lt; lra). lra. }
  replace (n * q - n * mu * (n * mu))%R
    with (n * (q - 2 * mu * (n * mu) + n * (mu * mu)))%R by ring.
  apply Rmult_lt_0_compat; assumption.
Qed.

(** Reading a list by its indices is reading it by its elements. *)
Lemma omap_lookup_seq {A B} (g : option A -> option B) (l : list A) :
  forall pre,
  omap (fun i => g ((pre ++ l) !! i)) (seq (length pre) (length l))
  = omap (fun x => g (Some x)) l.
Proof.
  induction l as [|x l IH]; intros pre; [reflexivity|].
  cbn [length seq omap list_omap].
  rewrite (list_lookup_middle pre l x (length pre) eq_refl).
  fold (omap (fun i => g ((pre ++ x :: l) !! i)) (seq (S (length pre)) (length l))).
  fold (omap (fun x => g (Some x)) l).
  specialize (IH (pre ++ [x])).
  rewrite length_app, Nat.add_1_r, <- app_assoc in IH. cbn [app] in IH.
  rewrite IH. reflexivity.
Qed.

(** The valid pairs of a series with itself are its finite values, each
    paired with itself. *)
Lemma validPairs_self (a : list XR) :
  validPairs a a
  = omap (fun x => if XR_isFinite x then Some (x, x) else None) a.
Proof.
  unfold validPairs. rewrite Nat.max_id.
  rewrite <- (omap_lookup_seq
                (fun o => match o with
                          | Some x => if XR_isFinite x then Some (x, x) else None
                          | None => None
                          end) a []).
  apply omap_ext_in. intros i _. unfold validPair. cbn [app].
  destruct (a !! i) as [[|x]|]; reflexivity.
Qed.

Lemma length_omap_filter {A B} (f : A -> bool) (g : A -> B) l :
  length (omap (fun x => if f x then Some (g x) else None) l)
  = length (List.filter f l).
Proof.
  induction l as [|x l IH]; [reflexivity|].
  cbn [omap list_omap List.filter]. destruct (f x); cbn [length];
    fold (omap (fun x => if f x then Some (g x) else None) l);
    rewrite IH; reflexivity.
Qed.

(** X5. In exact arithmetic the coefficient of a series with itself is
    [null] when the series has fewer than two finite values; otherwise it is
    0 when all its finite values are equal, and 1 as soon as two of them
    differ. *)
Theorem exact_self_correlation (a : list XR) :
  let finite := List.filter XR_isFinite a in
  (length finite < 2 -> calculatePearsonCorrelation a a = None) /\
  (2 <= length finite ->
   (forall v w, In (XReal v) a -> In (XReal w) a -> v = w) ->
   calculatePearsonCorrelation a a = Some (XReal 0)) /\
  (2 <= length finite ->
   (exists v w, In (XReal v) a /\ In (XReal w) a /\ v <> w) ->
   calculatePearsonCorrelation a a = Some (XReal 1)).
Proof.
  cbv zeta. rewrite calculatePearsonCorrelation_pearson.
  destruct (pearson_exact_value a a) as (rs & Hrs & ->).
  assert (length rs = length (List.filter XR_isFinite a)) as Hlen.
  { rewrite <- (length_map liftPair rs), <- Hrs, validPairs_self.
    apply (length_omap_filter XR_isFinite (fun x => (x, x))). }
  rewrite <- Hlen.
  assert (forall r, In r rs -> fst r = snd r /\ In (XReal (fst r)) a) as Hsame.
  { intros r Hr.
    assert (In (liftPair r) (validPairs a a)) as Hin
      by (rewrite Hrs; apply in_map; exact Hr).
    rewrite validPairs_self in Hin.
    apply list_elem_of_In, list_elem_of_omap in Hin as (x & Hx & Hp).
    apply list_elem_of_In in Hx.
    destruct x as [|x]; [discriminate|]. cbn in Hp.
    injection Hp as H1 H2. split; [congruence|]. rewrite <- H1. exact Hx. }
  assert (forall v, In (XReal v) a -> In v (map fst rs)) as Hall.
  { intros v Hv.
    assert (In (XReal v, XReal v) (validPairs a a)) as Hin.
    { rewrite validPairs_self.
      apply list_elem_of_In, list_elem_of_omap.
      exists (XReal v). split; [apply list_elem_of_In; exact Hv|reflexivity]. }
    rewrite Hrs in Hin. apply in_map_iff in Hin as (r & Hr & Hin).
    apply in_map_iff. exists r. split; [|exact Hin].
    injection Hr as H1 _. exact H1. }
  assert (map snd rs = map fst rs) as E1
    by (apply map_ext_in; intros r Hr; symmetry; apply Hsame; exact Hr).
  assert (map (fun p => snd p * snd p)%R rs = map (fun p => fst p * fst p)%R rs)
    as E2 by (apply map_ext_in; intros r Hr;
              rewrite (proj1 (Hsame r Hr)); reflexivity).
  assert (map (fun p => fst p * snd p)%R rs = map (fun p => fst p * fst p)%R rs)
    as E3 by (apply map_ext_in; intros r Hr;
              rewrite (proj1 (Hsame r Hr)); reflexivity).
  assert (varB rs = varA rs) as EB
    by (unfold varA, varB; rewrite E1, E2; reflexivity).
  assert (covAB rs = varA rs) as EC
    by (unfold varA, covAB; rewrite E1, E3; reflexivity).
  rewrite EB, EC.
  pose proof (varA_nonneg rs) as Hpos.
  rewrite sqrt_square by exact Hpos.
  split; [|split].
  - intros Hk. destruct (Nat.ltb_spec (length rs) 2); [reflexivity|lia].
  - intros Hk Heq. destruct (Nat.ltb_spec (length rs) 2); [lia|].
    assert (varA rs = 0%R) as HA.
    { destruct rs as [|r0 rs']; [simpl in Hk; lia|].
      set (c := fst r0).
      assert (forall r, In r (r0 :: rs') -> fst r = c) as Hc.
      { intros r Hr. apply Heq.
        - apply Hsame. exact Hr.
        - apply Hsame. left. reflexivity. }
      unfold varA.
      rewrite (Rtotal_constant (fun p => fst p * fst p)%R _ (c * c)%R)
        by (intros r Hr; rewrite (Hc r Hr); reflexivity).
      rewrite (Rtotal_constant fst _ c) by exact Hc. ring. }
    rewrite HA. destruct (Req_dec_T 0 0) as [_|Hne];
      [reflexivity|contradiction].
  - intros Hk (v & w & Hv & Hw & Hne).
    destruct (Nat.ltb_spec (length rs) 2); [lia|].
    assert (0 < varA rs)%R as HA.
    { pose proof (variance_pos (map fst rs) v w (Hall v Hv) (Hall w Hw) Hne)
        as Hvar.
      rewrite length_map, map_map in Hvar. exact Hvar. }
    destruct (Req_dec_T (varA rs) 0) as [E|Hnz]; [lra|].
    do 2 f_equal. field. exact Hnz.
Qed.

Lemma exact_self_correlation_witness :
  calculatePearsonCorrelation [XReal 3; XNaN] [XReal 3; XNaN] = None /\
  calculatePearsonCorrelation [XReal 3; XNaN; XReal 3] [XReal 3; XNaN; XReal 3]
    = Some (XReal 0) /\
  calculatePearsonCorrelation [XReal 1; XNaN; XReal 2] [XReal 1; XNaN; XReal 2]
    = Some (XReal 1).
Proof.
  split; [|split].
  - apply (exact_self_correlation [XReal 3; XNaN]). simpl. lia.
  - apply (exact_self_correlation [XReal 3; XNaN; XReal 3]); [simpl; lia|].
    intros v w Hv Hw. simpl in Hv, Hw.
    destruct Hv as [[= <-]|[[=]|[[= <-]|[]]]];
      destruct Hw as [[= <-]|[[=]|[[= <-]|[]]]]; reflexivity.
  - apply (exact_self_correlation [XReal 1; XNaN; XReal 2]); [simpl; lia|].
    exists 1%R, 2%R. simpl. split; [auto|]. split; [auto|lra].
Defined.

End ExactCoefficient.

(* ================================================================== *)
(** * The selection as a set *)

Section SelectionSet.

Lemma setHas_app s t x : setHas (s ++ t) x = setHas s x || setHas t x.
Proof. unfold setHas. apply existsb_app. Qed.

Lemma setHas_setAdd s i j :
  setHas (setAdd s i) j = (i =? j) || setHas s j.
Proof.
  unfold setAdd. destruct (setHas s i) eqn:Hi.
  - destruct (Nat.eqb_spec i j) as [->|]; [rewrite Hi|]; reflexivity.
  - rewrite setHas_app. unfold setHas at 2. cbn [existsb].
    rewrite orb_false_r, (Nat.eqb_sym j i).
    destruct (i =? j), (setHas s j); reflexivity.
Qed.

Lemma setHas_setDelete s i j :
  setHas (setDelete s i) j = negb (i =? j) && setHas s j.
Proof.
  unfold setDelete, setHas. induction s as [|y s IH]; cbn [List.filter existsb].
  - rewrite andb_false_r. reflexivity.
  - destruct (Nat.eqb_spec i y) as [->|Hiy]; cbn [negb existsb].
    + rewrite IH. destruct (Nat.eqb_spec j y) as [->|Hjy].
      * rewrite Nat.eqb_refl. reflexivity.
      * reflexivity.
    + rewrite IH. destruct (Nat.eqb_spec j y) as [->|Hjy].
      * destruct (Nat.eqb_spec i y); [contradiction|reflexivity].
      * reflexivity.
Qed.

Lemma setAdd_NoDup s i : List.NoDup s -> List.NoDup (setAdd s i).
Proof.
  intros Hs. unfold setAdd. destruct (setHas s i) eqn:Hi; [exact Hs|].
  apply List.NoDup_app; [exact Hs|repeat constructor; intros []|].
  intros x Hx [<-|[]]. apply setHas_In in Hx. congruence.
Qed.

(** X6. A toggle flips the membership of its index, leaves every other index as
    it is, and keeps the selection free of repetition. *)
Theorem toggleItem_flips_one s i :
  List.NoDup s ->
  List.NoDup (toggleItem s i) /\
  forall j, setHas (toggleItem s i) j
            = if i =? j then negb (setHas s i) else setHas s j.
Proof.
  intros Hs. unfold toggleItem. destruct (setHas s i) eqn:Hi; split.
  - apply List.NoDup_filter. exact Hs.
  - intros j. rewrite setHas_setDelete.
    destruct (Nat.eqb_spec i j); reflexivity.
  - apply setAdd_NoDup. exact Hs.
  - intros j. rewrite setHas_setAdd.
    destruct (Nat.eqb_spec i j) as [<-|]; [rewrite Hi|]; reflexivity.
Qed.

Lemma toggleItem_flips_one_witness :
  List.NoDup (toggleItem [0; 2; 5] 2) /\
  forall j, setHas (toggleItem [0; 2; 5] 2) j
            = if 2 =? j then negb (setHas [0; 2; 5] 2) else setHas [0; 2; 5] j.
Proof.
  apply toggleItem_flips_one.
  repeat constructor; simpl; intuition lia.
Defined.

Lemma setDelete_absent s i : ~ In i s -> setDelete s i = s.
Proof.
  intros Hi. unfold setDelete. induction s as [|y s IH]; [reflexivity|].
  cbn [List.filter]. destruct (Nat.eqb_spec i y) as [->|Hne].
  - exfalso. apply Hi. left. reflexivity.
  - cbn [negb]. rewrite IH; [reflexivity|].
    intros H. apply Hi. right. exact H.
Qed.

Lemma setDelete_app s t i :
  setDelete (s ++ t) i = setDelete s i ++ setDelete t i.
Proof. unfold setDelete. apply List.filter_app. Qed.

(** X7. Two toggles of the same index give back the same selected indices, but
    an index that was selected now iterates last. *)
Theorem toggleItem_twice s i :
  toggleItem (toggleItem s i) i
  = if setHas s i then setDelete s i ++ [i] else s.
Proof.
  unfold toggleItem at 2. destruct (setHas s i) eqn:Hi.
  - unfold toggleItem.
    assert (setHas (setDelete s i) i = false) as ->
      by (rewrite setHas_setDelete, Nat.eqb_refl; reflexivity).
    apply setAdd_fresh. intros Hin. apply setHas_In in Hin.
    rewrite setHas_setDelete, Nat.eqb_refl in Hin. discriminate.
  - unfold toggleItem.
    assert (~ In i s) as Hni by (intros H; apply setHas_In in H; congruence).
    rewrite setAdd_fresh by exact Hni.
    assert (setHas (s ++ [i]) i = true) as ->.
    { rewrite setHas_app. unfold setHas at 2. cbn. rewrite Nat.eqb_refl.
      apply orb_true_r. }
    rewrite setDelete_app, setDelete_absent by exact Hni.
    unfold setDelete. cbn. rewrite Nat.eqb_refl. cbn. apply app_nil_r.
Qed.

End SelectionSet.

(* ================================================================== *)
(** * The earlier component against the later one *)

Section LegacyFacts.
Variable Number_toString : float -> JSString.

Lemma fold_left_max l : forall n,
  fold_left Nat.max l n = Nat.max n (fold_right Nat.max 0 l).
Proof.
  induction l as [|x l IH]; intros n; simpl; [lia|].
  rewrite IH. lia.
Qed.

Lemma Legacy_headersOf rows hasHeaderRow :
  Legacy.headersOf Number_toString rows hasHeaderRow
  = headersOf Number_toString rows hasHeaderRow.
Proof.
  unfold Legacy.headersOf, headersOf.
  destruct hasHeaderRow, rows as [|row0 rest]; try reflexivity;
    cbv zeta; f_equal; f_equal;
    destruct (map length (take 10 (row0 :: rest))) as [|n l] eqn:E;
    try reflexivity; cbn [Legacy.mathMax Legacy.toLength fold_right];
    apply fold_left_max.
Qed.

Lemma dataRowsOf_drop rows hasHeaderRow :
  dataRowsOf rows hasHeaderRow = if hasHeaderRow then drop 1 rows else rows.
Proof. destruct hasHeaderRow, rows; reflexivity. Qed.

(** X8. The selection with which the earlier component mounts is the default
    selection of the later one under [columns]. *)
Theorem Legacy_initial_selection rows hasHeaderRow :
  Legacy.initialSelectedColumns Number_toString rows hasHeaderRow
  = defaultSelection Number_toString rows hasHeaderRow Columns.
Proof.
  unfold Legacy.initialSelectedColumns, defaultSelection, autoSelect.
  cbv zeta. rewrite Legacy_headersOf, <- dataRowsOf_drop.
  unfold forEach. apply forEachFrom_ext. intros sel h colIdx. cbv beta.
  destruct (take 20 (dataRowsOf rows hasHeaderRow)) as [|row sample];
    reflexivity.
Qed.

Lemma forEach_pushCell colIdx dataRows :
  forEach (Legacy.pushCell colIdx) dataRows []
  = map (fun row => coerceCell (cellAt row colIdx)) dataRows.
Proof.
  unfold forEach.
  rewrite (forEachFrom_ext (Legacy.pushCell colIdx)
             (fun vs row _ => vs ++ [coerceCell (cellAt row colIdx)])).
  - rewrite (forEachFrom_fold
               (fun vs row => vs ++ [coerceCell (cellAt row colIdx)])).
    apply (fold_left_snoc (fun row => coerceCell (cellAt row colIdx))).
  - intros vs row i. unfold Legacy.pushCell, coerceCell.
    destruct (cellAt row colIdx) as [| |s|x|b]; try reflexivity.
    cbv zeta. destruct (isNaN (parseFloat s)); reflexivity.
Qed.

Lemma fold_left_ext {A B} (f g : A -> B -> A) l :
  (forall a b, f a b = g a b) -> forall a, fold_left f l a = fold_left g l a.
Proof.
  intros H. induction l as [|b l IH]; intros a; simpl; [reflexivity|].
  rewrite H. apply IH.
Qed.

(** X9. On the same table, header decision and selection, the earlier
    [handleAnalyze] calls [onAnalyze] exactly when the later one does under
    [columns], with the same series in the same order, and it alerts in the
    same two cases.  Its alerts have texts of their own: they speak of
    columns where the later ones speak of items. *)
Theorem Legacy_handleAnalyze rows hasHeaderRow sel :
  Legacy.handleAnalyze Number_toString rows hasHeaderRow sel =
    match handleAnalyze Number_toString rows hasHeaderRow Columns sel with
    | AlertSelection => Legacy.Alert Legacy.selectionAlert
    | AlertData => Legacy.Alert Legacy.dataAlert
    | OnAnalyze variables => Legacy.CallOnAnalyze variables
    end /\
  alertText AlertSelection <> Some Legacy.selectionAlert /\
  alertText AlertData <> Some Legacy.dataAlert.
Proof.
  split; [|split; discriminate].
  unfold Legacy.handleAnalyze, handleAnalyze.
  destruct (length sel <? 2); [reflexivity|]. cbv zeta.
  rewrite Legacy_headersOf.
  rewrite (fold_left_ext _
             (extractColumn (headersOf Number_toString rows hasHeaderRow)
                            (dataRowsOf rows hasHeaderRow))).
  - destruct (length _ <? 2); reflexivity.
  - intros variables colIdx. unfold extractColumn. cbv zeta.
    rewrite forEach_pushCell. unfold forEach.
    rewrite (forEachFrom_fold
               (fun vs row => vs ++ [coerceCell (cellAt row colIdx)])).
    rewrite (fold_left_snoc (fun row => coerceCell (cellAt row colIdx))).
    reflexivity.
Qed.

End LegacyFacts.

(* ================================================================== *)
(** * Further properties of the configuration component *)

Section ConfigurationFacts.
Variable Number_toString : float -> JSString.

(** X10. Under [rows], every extracted series belongs to a selected index that
    has a row: its name is the text of the row's first cell, or the row
    label when that cell is missing, and its values are the coercions of the
    other cells, position by position.  A selected index without row gives
    no series. *)
Theorem row_series_shape rows hasHeaderRow sel variables :
  handleAnalyze Number_toString rows hasHeaderRow Rows sel
    = OnAnalyze variables ->
  Forall (fun v =>
    exists rowIdx row,
      In rowIdx sel /\
      dataRowsOf rows hasHeaderRow !! rowIdx = Some row /\
      name v = String_ Number_toString
                 (if isNullish (cellAt row 0)
                  then Str (rowLabel Number_toString rowIdx)
                  else cellAt row 0) /\
      length (values v) = length row - 1 /\
      forall c, values v !! c = coerceCell <$> row !! (S c))
    variables.
Proof.
  intros H. apply handleAnalyze_OnAnalyze in H as (_ & -> & _).
  unfold survivingSeries, candidateSeries.
  apply List.Forall_forall. intros v Hv.
  apply filter_In in Hv as [Hv _].
  apply list_elem_of_In, list_elem_of_omap in Hv as (rowIdx & Hsel & Hv).
  apply list_elem_of_In in Hsel.
  unfold rowSeries in Hv.
  destruct (dataRowsOf rows hasHeaderRow !! rowIdx) as [row|] eqn:Hrow;
    [|discriminate].
  injection Hv as <-. exists rowIdx, row. cbn [name values].
  split; [exact Hsel|]. split; [exact Hrow|]. split; [reflexivity|].
  split.
  - rewrite length_map, length_drop. reflexivity.
  - intros c. rewrite list_lookup_fmap, lookup_drop. reflexivity.
Qed.

Lemma fold_right_max_bound (l : list nat) n :
  In n l -> n <= fold_right Nat.max 0 l.
Proof.
  induction l as [|x l IH]; intros H; [destruct H|].
  simpl. destruct H as [->|H]; [lia|]. apply IH in H. lia.
Qed.

(** X11. The memo splits the table: with a header row on a table that has rows,
    the header texts are those of row 0, cell by cell, and the data rows are
    the others; otherwise every row is a data row and there is one
    generated label per column of the widest of the first ten rows. *)
Theorem headers_and_dataRows rows hasHeaderRow :
  match hasHeaderRow, rows with
  | true, row0 :: rest =>
      dataRowsOf rows hasHeaderRow = rest /\
      length (headersOf Number_toString rows hasHeaderRow) = length row0 /\
      forall i c, row0 !! i = Some c ->
        headersOf Number_toString rows hasHeaderRow !! i
        = Some (if isNullish c then [] else String_ Number_toString c)
  | _, _ =>
      dataRowsOf rows hasHeaderRow = rows /\
      (forall r row, r < 10 -> rows !! r = Some row ->
         length row <= length (headersOf Number_toString rows hasHeaderRow)) /\
      forall i, i < length (headersOf Number_toString rows hasHeaderRow) ->
        headersOf Number_toString rows hasHeaderRow !! i = Some (columnLabel i)
  end.
Proof.
  assert (forall rs : Table,
    dataRowsOf rs false = rs /\
    (forall r row, r < 10 -> rs !! r = Some row ->
       length row <= length (headersOf Number_toString rs false)) /\
    forall i, i < length (headersOf Number_toString rs false) ->
      headersOf Number_toString rs false !! i = Some (columnLabel i)) as Hno.
  { intros rs. split; [reflexivity|]. unfold headersOf. cbv zeta.
    rewrite length_map, length_seq. split.
    - intros r row Hr Hrow. apply fold_right_max_bound.
      apply in_map. apply list_elem_of_In.
      eapply list_elem_of_lookup_2. rewrite lookup_take_lt by exact Hr.
      exact Hrow.
    - intros i Hi. rewrite list_lookup_fmap, lookup_seq_lt by exact Hi.
      reflexivity. }
  destruct hasHeaderRow; [|apply Hno].
  destruct rows as [|row0 rest]; [apply (Hno [])|].
  split; [reflexivity|]. unfold headersOf.
  split; [apply length_map|].
  intros i c Hc. rewrite list_lookup_fmap, Hc. cbn.
  destruct c; reflexivity.
Qed.

(** X12. Header inference turns on the strings of row 0: a first row without any
    cell that is a non-numeric string is never taken for a header, and a
    first row of nothing but such strings always is.  An empty table has no
    header. *)
Theorem detectHeaderRow_by_strings row0 rest :
  (Forall (fun c => stringLike c = false) row0 ->
   detectHeaderRow Number_toString (row0 :: rest) = false) /\
  (row0 <> [] -> Forall (fun c => stringLike c = true) row0 ->
   detectHeaderRow Number_toString (row0 :: rest) = true) /\
  detectHeaderRow Number_toString [] = false.
Proof.
  rewrite detectHeaderRow_headerPresent. unfold headerPresent, countIf.
  cbv zeta. split; [|split; [|reflexivity]].
  - intros Hall.
    assert (List.filter stringLike row0 = []) as ->.
    { induction Hall as [|c l Hc _ IH]; [reflexivity|].
      cbn [List.filter]. rewrite Hc. exact IH. }
    reflexivity.
  - intros Hne Hall.
    assert (List.filter stringLike row0 = row0) as ->.
    { clear Hne. induction Hall as [|c l Hc _ IH]; [reflexivity|].
      cbn [List.filter]. rewrite Hc, IH. reflexivity. }
    assert (List.filter numberLike row0 = []) as ->.
    { clear Hne. induction Hall as [|c l Hc _ IH]; [reflexivity|].
      cbn [List.filter].
      assert (numberLike c = false) as ->; [|exact IH].
      unfold stringLike, numberLike in *.
      destruct (isNullish c), (isString c) eqn:Hs, (isNaN (coerceCell c));
        try discriminate; destruct c; try discriminate; reflexivity. }
    destruct row0; [contradiction|]. reflexivity.
Qed.

(** X13. The comparison [numericCount > total * 0.3], made on binary64 numbers,
    is exact: for every total below [2^51] and every count below [2^53] it
    holds exactly when [10 * numericCount > 3 * total]. *)
Theorem threshold_is_exact (numericCount total : nat) :
  (Z.of_nat total < 2 ^ 51)%Z -> (Z.of_nat numericCount < 2 ^ 53)%Z ->
  moreThan30Percent numericCount total = true <->
  (3 * Z.of_nat total < 10 * Z.of_nat numericCount)%Z.
Proof.
  intros Hn Hc. rewrite moreThan30Percent_exact by assumption.
  apply Z.ltb_lt.
Qed.

End ConfigurationFacts.

Lemma row_series_shape_witness :
  Forall (fun v =>
    exists rowIdx row,
      In rowIdx [0; 2] /\
      dataRowsOf salesTable true !! rowIdx = Some row /\
      name v = String_ blankNumberText
                 (if isNullish (cellAt row 0)
                  then Str (rowLabel blankNumberText rowIdx)
                  else cellAt row 0) /\
      length (values v) = length row - 1 /\
      forall c, values v !! c = coerceCell <$> row !! (S c))
    [mkVariableData (js "Jan") [100; 10]%float;
     mkVariableData (js "Mar") [300; 40]%float].
Proof.
  apply (row_series_shape blankNumberText salesTable true [0; 2]).
  vm_compute. reflexivity.
Defined.

Lemma threshold_is_exact_witness :
  moreThan30Percent 3 10 = false /\ moreThan30Percent 4 10 = true.
Proof.
  pose proof (threshold_is_exact 3 10 ltac:(reflexivity) ltac:(reflexivity))
    as H3.
  pose proof (threshold_is_exact 4 10 ltac:(reflexivity) ltac:(reflexivity))
    as H4.
  split.
  - destruct (moreThan30Percent 3 10); [|reflexivity].
    destruct H3 as [H3 _]. specialize (H3 eq_refl). lia.
  - apply H4. lia.
Defined.

(* ================================================================== *)
(** * The export and the application *)

Section ExportFacts.

Lemma mapFromM_rows (g : list (list float)) (names : list JSString) :
  forall index,
  (forall k, k < length names -> is_Some (g !! (index + k))) ->
  exists bs,
    CorrelationMatrix.mapFromM
      (fun v i => match g !! i with
                  | Some row => Normal (Str v :: map Num row)
                  | None => Throw TypeError
                  end) names index = Normal bs /\
    length bs = length names /\
    forall k v, names !! k = Some v ->
      exists row, g !! (index + k) = Some row /\
        bs !! k = Some (Str v :: map Num row).
Proof.
  induction names as [|v names IH]; intros index Hg.
  - exists []. repeat split. intros k v Hk. discriminate.
  - cbn [CorrelationMatrix.mapFromM].
    destruct (Hg 0) as [row Hrow]; [simpl; lia|].
    rewrite Nat.add_0_r in Hrow. rewrite Hrow.
    destruct (IH (S index)) as (bs & Hbs & Hlen & Hall).
    { intros k Hk. replace (S index + k) with (index + S k) by lia.
      apply Hg. simpl. lia. }
    cbn. rewrite Hbs. cbn.
    exists ((Str v :: map Num row) :: bs). split; [reflexivity|].
    split; [simpl; lia|].
    intros [|k] w Hw.
    + injection Hw as <-. exists row. rewrite Nat.add_0_r. auto.
    + destruct (Hall k w Hw) as (r & Hr & Hb).
      exists r. replace (index + S k) with (S index + k) by lia. auto.
Qed.

(** X14. The CSV export of a matrix that [generateCorrelationMatrix] produced
    does not throw, and it has one row more and one column more than there
    are series: the header row, then for each series its name followed by
    its row of the grid. *)
Theorem csvData_of_generated (data : list (VariableData float)) :
  exists m allData,
    generateCorrelationMatrix data = Normal m /\
    CorrelationMatrix.csvData m = Normal allData /\
    length allData = S (length data) /\
    Forall (fun row => length row = S (length data)) allData /\
    forall i d, data !! i = Some d ->
      exists coefficients,
        grid m !! i = Some coefficients /\
        allData !! (S i) = Some (Str (name d) :: map Num coefficients).
Proof.
  destruct (generateCorrelationMatrix_grid data) as (g & Hg & [Hlen Hrows] & _).
  destruct (mapFromM_rows g (map name data) 0) as (bs & Hbs & Hbl & Hall).
  { intros k Hk. rewrite length_map in Hk.
    apply lookup_lt_is_Some_2. simpl. lia. }
  exists (mkMatrix (map name data) g).
  exists ((Str [35722; 25976]%N :: map Str (map name data)) :: bs).
  split; [exact Hg|]. unfold CorrelationMatrix.csvData. cbn [variables grid].
  rewrite Hbs. split; [reflexivity|].
  rewrite length_map in Hbl.
  split; [simpl; lia|]. split.
  - constructor; [simpl; rewrite !length_map; reflexivity|].
    apply List.Forall_forall. intros row Hin.
    apply list_elem_of_In, list_elem_of_lookup in Hin as [k Hk].
    destruct (lookup_lt_is_Some_2 (map name data) k) as [v Hv].
    { rewrite length_map, <- Hbl. eapply lookup_lt_Some. exact Hk. }
    destruct (Hall k v Hv) as (r & Hr & Hb).
    rewrite Hk in Hb. injection Hb as ->.
    simpl. rewrite length_map. f_equal. eapply Hrows. exact Hr.
  - intros i d Hd.
    destruct (Hall i (name d)) as (r & Hr & Hb).
    { rewrite list_lookup_fmap, Hd. reflexivity. }
    exists r. auto.
Qed.

(** X15. The text colour of a cell depends on the magnitude of its coefficient,
    not on its sign. *)
Theorem getTextColor_sign (value : float) :
  CorrelationMatrix.getTextColor (- value)%float
  = CorrelationMatrix.getTextColor value.
Proof.
  unfold CorrelationMatrix.getTextColor.
  assert (abs (- value) = abs value) as ->; [|reflexivity].
  apply Prim2SF_inj. rewrite !abs_spec, opp_spec.
  destruct (Prim2SF value); reflexivity.
Qed.

End ExportFacts.

Section ApplicationFacts.
Variable Number_toString : float -> JSString.

(** X16. Every state the interface can reach shows a view, and a matrix it
    holds is square, over at least two variables.  The upload view holds no
    data of an earlier file.  The configuration view holds a table with at
    least one row; it can still hold the matrix of an earlier analysis, since
    a file read can complete after one.  The result view holds the matrix of
    series that the configuration component extracted from the table held. *)
Theorem App_reachable_invariant (st : App.AppState) :
  App.reachable Number_toString st ->
  App.view st = Some (App.step st) /\
  (forall m, App.matrix st = Some m ->
     2 <= length (variables m) /\
     length (grid m) = length (variables m) /\
     Forall (fun row => length row = length (variables m)) (grid m)) /\
  match App.step st with
  | App.upload =>
      App.parsedData st = None /\ App.matrix st = None /\ App.fileName st = []
  | App.config =>
      exists data, App.parsedData st = Some data /\ App.rows data <> []
  | App.result =>
      exists data hasHeaderRow orientation sel variables m,
        App.parsedData st = Some data /\ App.rows data <> [] /\
        configHandleAnalyze Number_toString (App.rows data) hasHeaderRow
          orientation sel = OnAnalyze variables /\
        generateCorrelationMatrix variables = Normal m /\
        App.matrix st = Some m
  end.
Proof.
  induction 1 as [|st st' Hreach IH Hstep].
  - cbn. split; [reflexivity|]. split; [discriminate|auto].
  - destruct IH as (Hview & Hmatrix & IH). destruct Hstep
      as [st jsonData fname st' Hp
         |st data hasHeaderRow orientation sel vars Hv Hd Ha
         |st Hne].
    + unfold App.processFile in Hp.
      destruct (Nat.eqb_spec (length jsonData) 0) as [|Hlen]; [discriminate|].
      injection Hp as <-. cbn.
      split; [reflexivity|]. split; [exact Hmatrix|].
      eexists. split; [reflexivity|]. cbn.
      intros ->. apply Hlen. reflexivity.
    + rewrite Hview in Hv. injection Hv as Hs. rewrite Hs in IH.
      destruct IH as (d & Hd' & Hrows).
      rewrite Hd in Hd'. injection Hd' as <-.
      unfold App.handleAnalyze.
      destruct (generateCorrelationMatrix_grid vars)
        as (g & Hg & [Hlen Hsq] & _).
      rewrite Hg. cbn.
      pose proof Ha as Hvars.
      apply handleAnalyze_OnAnalyze in Hvars as (_ & _ & Hvars).
      split; [reflexivity|]. split.
      * intros m [= <-]. cbn. rewrite length_map.
        split; [exact Hvars|]. split; [exact Hlen|].
        apply List.Forall_forall. intros row Hrow.
        apply list_elem_of_In, list_elem_of_lookup in Hrow as [i Hi].
        eapply Hsq. exact Hi.
      * exists data, hasHeaderRow, orientation, sel, vars,
          (mkMatrix (map name vars) g). auto.
    + cbn. split; [reflexivity|]. split; [discriminate|auto].
Qed.

End ApplicationFacts.

(** A read completes after an analysis: the configuration view is shown
    with the matrix of the earlier analysis still held. *)
Lemma App_reachable_invariant_witness :
  let loaded :=
    App.handleDataLoaded (App.mkParsedData [] salesTable) (js "sales.csv")
      App.initialState in
  let analysed :=
    App.handleAnalyze
      [mkVariableData (js "Jan") [100; 10]%float;
       mkVariableData (js "Mar") [300; 40]%float] loaded in
  let st :=
    App.handleDataLoaded (App.mkParsedData [] placeholderTable)
      (js "table.csv") analysed in
  App.matrix st <> None /\
  App.view st = Some App.config /\
  (forall m, App.matrix st = Some m ->
     2 <= length (variables m) /\
     length (grid m) = length (variables m) /\
     Forall (fun row => length row = length (variables m)) (grid m)) /\
  exists data, App.parsedData st = Some data /\ App.rows data <> [].
Proof.
  cbv zeta. split; [vm_compute; discriminate|].
  apply (App_reachable_invariant blankNumberText).
  eapply App.reachable_step.
  - eapply App.reachable_step.
    + eapply App.reachable_step; [apply App.reachable_initial|].
      apply (App.fileLoaded blankNumberText App.initialState salesTable
               (js "sales.csv")). reflexivity.
    + apply (App.analysisStarted blankNumberText _
               (App.mkParsedData [] salesTable) true Rows [0; 2]).
      * reflexivity.
      * reflexivity.
      * vm_compute. reflexivity.
  - apply (App.fileLoaded blankNumberText _ placeholderTable
             (js "table.csv")). reflexivity.
Defined.

(* ================================================================== *)
(** * Tables too small to analyse, and the selection buttons *)

Section SmallTables.
Variable Number_toString : float -> JSString.

Lemma countValid_le values : countValid values <= length values.
Proof. unfold countValid. apply List.filter_length_le. Qed.

Lemma filter_none {A} (f : A -> bool) l :
  (forall x, In x l -> f x = false) -> List.filter f l = [].
Proof.
  induction l as [|x l IH]; intros H; [reflexivity|].
  cbn [List.filter]. rewrite (H x) by (left; reflexivity).
  apply IH. intros y Hy. apply H. right. exact Hy.
Qed.

(** X17. No selection makes a table with fewer than two data rows
    analysable by columns, nor one whose data rows all have fewer than three
    cells analysable by rows: the outcome is one of the two alerts. *)
Theorem too_little_data rows hasHeaderRow orientation sel :
  match orientation with
  | Columns => length (dataRowsOf rows hasHeaderRow) < 2
  | Rows => Forall (fun row : Row => length row < 3)
              (dataRowsOf rows hasHeaderRow)
  end ->
  handleAnalyze Number_toString rows hasHeaderRow orientation sel
    = AlertSelection \/
  handleAnalyze Number_toString rows hasHeaderRow orientation sel
    = AlertData.
Proof.
  intros Hsmall. rewrite handleAnalyze_surviving.
  destruct (length sel <? 2); [left; reflexivity|]. right. cbv zeta.
  assert (survivingSeries Number_toString rows hasHeaderRow orientation sel
          = []) as ->; [|reflexivity].
  unfold survivingSeries. apply filter_none. intros v Hv.
  unfold survives. apply Nat.leb_gt.
  eapply Nat.le_lt_trans; [apply countValid_le|].
  unfold candidateSeries in Hv. destruct orientation.
  - apply in_map_iff in Hv as (colIdx & <- & _).
    cbn [values columnSeries]. unfold columnCells.
    rewrite !length_map. exact Hsmall.
  - apply list_elem_of_In, list_elem_of_omap in Hv as (rowIdx & _ & Hv).
    unfold rowSeries in Hv.
    destruct (dataRowsOf rows hasHeaderRow !! rowIdx) as [row|] eqn:Hrow;
      [|discriminate].
    injection Hv as <-. cbn [values].
    rewrite length_map, length_drop.
    apply list_elem_of_lookup_2, list_elem_of_In in Hrow.
    rewrite List.Forall_forall in Hsmall. specialize (Hsmall row Hrow). lia.
Qed.

(** X18. [selectAll] replaces the selection by every index of the current
    orientation, once each and in ascending order; after [deselectAll] the
    analysis is refused for want of a selection. *)
Theorem selection_buttons orientation headers dataRows :
  let n := match orientation with
           | Columns => length headers
           | Rows => length dataRows
           end in
  selectAll orientation headers dataRows = seq 0 n /\
  (forall i, setHas (selectAll orientation headers dataRows) i = (i <? n)) /\
  forall rows hasHeaderRow,
    handleAnalyze Number_toString rows hasHeaderRow orientation deselectAll
    = AlertSelection.
Proof.
  cbv zeta.
  assert (selectAll orientation headers dataRows
          = seq 0 match orientation with
                  | Columns => length headers
                  | Rows => length dataRows
                  end) as ->.
  { destruct orientation; apply newSet_seq. }
  split; [reflexivity|]. split; [|reflexivity].
  intros i. apply eq_true_iff_eq.
  rewrite setHas_In, in_seq, Nat.ltb_lt. lia.
Qed.

End SmallTables.

Lemma too_little_data_witness :
  handleAnalyze blankNumberText
    [[Str (js "a"); Str (js "b")]; [Num 1; Num 2]] true Columns [0; 1]
    = AlertSelection \/
  handleAnalyze blankNumberText
    [[Str (js "a"); Str (js "b")]; [Num 1; Num 2]] true Columns [0; 1]
    = AlertData.
Proof.
  apply (too_little_data blankNumberText
           [[Str (js "a"); Str (js "b")]; [Num 1; Num 2]] true Columns [0; 1]).
  simpl. lia.
Defined.
